(** * ptsim: a paged virtual-memory simulator

    Shallow embedding of [ptsim.c].  The program keeps one global array
    [unsigned char mem[MEM_SIZE]] and every operation reads and writes it
    in place.  Here the array is a list of bytes, threaded through a small
    state-and-error monad: an access outside the array (undefined behaviour
    in C) is the error [None].

    C [int]s are modelled as [Z]; the bit operations [<<], [|], [>>], [&]
    are [Z.shiftl], [Z.lor], [Z.shiftr], [Z.land] (two's complement, as on
    the machines the simulator runs on).  The only arithmetic that can
    leave the [int] range is [PTP_OFFSET + proc_num], whose result is then
    an index outside the array, that is, an error here as well.  A value
    stored into [mem] is converted to [unsigned char], i.e. reduced modulo
    256. *)

From Stdlib Require Import ZArith Lia Bool String Ascii.
From stdpp Require Import base tactics option list.

Local Open Scope Z_scope.

(** ** Constants ([#define]s of the source) *)

Definition MEM_SIZE : Z := 16384.
Definition PAGE_SIZE : Z := 256.
Definition PAGE_COUNT : Z := 64.
Definition PAGE_SHIFT : Z := 8.
Definition PTP_OFFSET : Z := 64.

(** ** Simulated RAM *)

Module Mem.

(** The array [mem]: one [Z] per [unsigned char]. *)
Abbreviation t := (list Z) (only parsing).

(** [memset(mem, 0, MEM_SIZE)] *)
Definition zeroed : t := replicate (Z.to_nat MEM_SIZE) 0.

Definition in_range (a : Z) : bool := (0 <=? a) && (a <? MEM_SIZE).

(** The value of [mem[a]], for an index inside the array. *)
Definition get (m : t) (a : Z) : option Z :=
  if in_range a then m !! Z.to_nat a else None.

(** The array with cell [a] overwritten by [v], converted to
    [unsigned char]. *)
Definition put (m : t) (a v : Z) : t := <[Z.to_nat a := v mod 256]> m.

(** The array after [mem[a] = v], for an index inside the array. *)
Definition set (m : t) (a v : Z) : option t :=
  if in_range a then Some (put m a v) else None.

(** Every cell is an [unsigned char] and the array has [MEM_SIZE] cells. *)
Definition wf (m : t) : Prop :=
  length m = Z.to_nat MEM_SIZE /\ Forall (fun b => 0 <= b < 256) m.

(** Observation of a cell for specifications (0 outside the array). *)
Definition at_ (m : t) (a : Z) : Z := default 0 (get m a).

End Mem.

(** ** The monad of the simulator: global memory, and failure on an
       out-of-bounds access *)

Definition M (A : Type) : Type := Mem.t -> option (A * Mem.t).

Definition ret {A} (x : A) : M A := fun m => Some (x, m).

Definition bind {A B} (c : M A) (k : A -> M B) : M B :=
  fun m => match c m with
           | Some (x, m') => k x m'
           | None => None
           end.

Notation "x <- c ;; k" := (bind c (fun x => k))
  (at level 100, c at next level, right associativity).
Notation "c ;;; k" := (bind c (fun _ => k))
  (at level 100, right associativity).

(** [mem[a]] as an rvalue *)
Definition load (a : Z) : M Z :=
  fun m => match Mem.get m a with
           | Some b => Some (b, m)
           | None => None
           end.

(** [mem[a] = v] *)
Definition store (a v : Z) : M unit :=
  fun m => match Mem.set m a v with
           | Some m' => Some (tt, m')
           | None => None
           end.

(** ** The operations of [ptsim.c] *)

(** [get_address]: [(page << PAGE_SHIFT) | offset] *)
Definition get_address (page offset : Z) : Z :=
  Z.lor (Z.shiftl page PAGE_SHIFT) offset.

(** [initialize_mem] *)
Definition initialize_mem : M unit :=
  fun _ =>
    (let zpfree_addr := get_address 0 0 in
     store zpfree_addr 1) Mem.zeroed.

(** [get_page_table] *)
Definition get_page_table (proc_num : Z) : M Z :=
  let ptp_addr := get_address 0 (PTP_OFFSET + proc_num) in
  load ptp_addr.

(** [set_page_table] *)
Definition set_page_table (proc_num page : Z) : M unit :=
  let ptp_addr := get_address 0 (PTP_OFFSET + proc_num) in
  store ptp_addr page.

(** The loop of [allocate_next_page], from index [i] with [n] iterations
    left: the first cell holding 0 is set to 1 and its index returned
    ([break]); [-1] when the loop runs out. *)
Fixpoint allocate_scan (n : nat) (i : Z) : M Z :=
  match n with
  | O => ret (-1)
  | S n' =>
      b <- load i ;;
      if b =? 0 then store i 1 ;;; ret i
      else allocate_scan n' (i + 1)
  end.

(** [allocate_next_page] *)
Definition allocate_next_page : M Z :=
  allocate_scan (Z.to_nat PTP_OFFSET) 0.

(** What [new_process] reports: nothing, or one of its two [printf]s. *)
Inductive report : Type :=
| Created
| OOM_page_table (proc_num : Z)
| OOM_data_page (proc_num : Z).

(** The [for] loop of [new_process], from index [i] with [n] iterations
    left. *)
Fixpoint map_data_pages (n : nat) (proc_num page_table i : Z) : M report :=
  match n with
  | O => ret Created
  | S n' =>
      page <- allocate_next_page ;;
      if page =? -1 then ret (OOM_data_page proc_num)
      else
        let pte_addr := get_address page_table i in
        store pte_addr page ;;;
        map_data_pages n' proc_num page_table (i + 1)
  end.

(** [new_process] *)
Definition new_process (proc_num page_count : Z) : M report :=
  page_table <- allocate_next_page ;;
  if page_table =? -1 then ret (OOM_page_table proc_num)
  else
    set_page_table proc_num page_table ;;;
    map_data_pages (Z.to_nat page_count) proc_num page_table 0.

(** The [for] loop of [kill_process], from index [i] with [n] iterations
    left. *)
Fixpoint free_mapped_pages (n : nat) (page_table i : Z) : M unit :=
  match n with
  | O => ret tt
  | S n' =>
      let pte_addr := get_address page_table i in
      page <- load pte_addr ;;
      (if negb (page =? 0) then store page 0 else ret tt) ;;;
      free_mapped_pages n' page_table (i + 1)
  end.

(** [kill_process] *)
Definition kill_process (proc_num : Z) : M unit :=
  page_table <- get_page_table proc_num ;;
  free_mapped_pages (Z.to_nat PAGE_SIZE) page_table 0 ;;;
  store page_table 0.

(** The two halves of a virtual address, as [translate_virtual_address]
    computes them: [vaddr >> 8] and [vaddr & 255]. *)
Definition pte_index_of (vaddr : Z) : Z := Z.shiftr vaddr 8.
Definition offset_of (vaddr : Z) : Z := Z.land vaddr 255.

(** [translate_virtual_address] *)
Definition translate_virtual_address (proc_num vaddr : Z) : M Z :=
  let pte_index := pte_index_of vaddr in
  let offset := offset_of vaddr in
  page_table <- get_page_table proc_num ;;
  let pte_addr := get_address page_table pte_index in
  page <- load pte_addr ;;
  ret (get_address page offset).

(** The line printed by [store_value] and [load_value]. *)
Record trace : Type := Trace {
  tr_proc : Z;
  tr_vaddr : Z;
  tr_addr : Z;
  tr_value : Z
}.

(** [store_value]; the parameter [value] is an [unsigned char]. *)
Definition store_value (proc_num vaddr value : Z) : M trace :=
  let value := value mod 256 in
  addr <- translate_virtual_address proc_num vaddr ;;
  store addr value ;;;
  ret (Trace proc_num vaddr addr value).

(** [load_value] *)
Definition load_value (proc_num vaddr : Z) : M trace :=
  addr <- translate_virtual_address proc_num vaddr ;;
  value <- load addr ;;
  ret (Trace proc_num vaddr addr value).

(** Running a computation for its final memory only. *)
Definition exec {A} (c : M A) (m : Mem.t) : option Mem.t :=
  match c m with
  | Some (_, m') => Some m'
  | None => None
  end.

(** The memory before the first command of [main]. *)
Definition initial_mem : Mem.t :=
  match exec initialize_mem Mem.zeroed with
  | Some m => m
  | None => Mem.zeroed
  end.

(** ** Observations used in the specifications *)

(** The directory entry of process [proc_num]: the cell that
    [get_page_table] reads. *)
Definition directory_entry (m : Mem.t) (proc_num : Z) : Z :=
  Mem.at_ m (PTP_OFFSET + proc_num).

(** Entry [i] of the page table stored in page [page_table]. *)
Definition pte (m : Mem.t) (page_table i : Z) : Z :=
  Mem.at_ m (get_address page_table i).

(** Number of free pages, counted the way [print_page_free_map] walks the
    map: cells [i .. i+n) holding 0. *)
Fixpoint count_free (n : nat) (i : Z) (m : Mem.t) : Z :=
  match n with
  | O => 0
  | S n' => (if Mem.at_ m i =? 0 then 1 else 0) + count_free n' (i + 1) m
  end.

Definition free_pages (m : Mem.t) : Z :=
  count_free (Z.to_nat PTP_OFFSET) 0 m.

(** ** [kill_process] on a process without a page table, as claim C2
       words it

    Page 0 itself is scanned as the page table: at each offset [i] of page
    0, when the byte found there is nonzero the cell whose index is that
    byte is cleared; at the end cell 0 is cleared.  This is the comparison
    point for [kill_process]; it is not derived from the source. *)
Fixpoint scan_page_zero (n : nat) (i : Z) (m : Mem.t) : Mem.t :=
  match n with
  | O => m
  | S n' =>
      let b := Mem.at_ m i in
      scan_page_zero n' (i + 1) (if b =? 0 then m else Mem.put m b 0)
  end.

Definition kill_page_zero (m : Mem.t) : Mem.t :=
  Mem.put (scan_page_zero (Z.to_nat PAGE_SIZE) 0 m) 0 0.

(** ** Command streams

    One command of [main]'s loop ([np], [kp], [sb], [lb]); the two printing
    commands do not touch memory. *)
Inductive command : Type :=
| Np (proc_num page_count : Z)
| Kp (proc_num : Z)
| Sb (proc_num vaddr value : Z)
| Lb (proc_num vaddr : Z).

Definition run_command (c : command) : M unit :=
  match c with
  | Np proc_num page_count => new_process proc_num page_count ;;; ret tt
  | Kp proc_num => kill_process proc_num
  | Sb proc_num vaddr value => store_value proc_num vaddr value ;;; ret tt
  | Lb proc_num vaddr => load_value proc_num vaddr ;;; ret tt
  end.

(** [main]: [initialize_mem], then the commands in order. *)
Fixpoint run_commands (cs : list command) : M unit :=
  match cs with
  | [] => ret tt
  | c :: cs' => run_command c ;;; run_commands cs'
  end.

Definition run_main (cs : list command) : option Mem.t :=
  exec (initialize_mem ;;; run_commands cs) Mem.zeroed.

(** The memory after [main] has run the commands [cs] (the zeroed array
    when the run leaves the array). *)
Definition after (cs : list command) : Mem.t :=
  match run_main cs with
  | Some m => m
  | None => Mem.zeroed
  end.

(** The value returned by a computation, without the memory. *)
Definition result {A} (c : M A) (m : Mem.t) : option A :=
  match c m with
  | Some (x, _) => Some x
  | None => None
  end.

(** States reachable from the initial memory by lifecycle operations. *)
Inductive reachable : Mem.t -> Prop :=
| reachable_init : reachable initial_mem
| reachable_step c m m' :
    reachable m -> exec (run_command c) m = Some m' -> reachable m'.

(** A command that keeps away from the bitmap byte of page 0: [kp] on a
    process whose directory entry is nonzero, [sb] that does not write 0 at
    physical address 0. *)
Definition spares_page_zero (c : command) (m : Mem.t) : bool :=
  match c with
  | Np _ _ => true
  | Kp proc_num => negb (directory_entry m proc_num =? 0)
  | Sb proc_num vaddr value =>
      match translate_virtual_address proc_num vaddr m with
      | Some (addr, _) => negb (addr =? 0) || negb (value mod 256 =? 0)
      | None => true
      end
  | Lb _ _ => true
  end.

Inductive reachable_sparing : Mem.t -> Prop :=
| sparing_init : reachable_sparing initial_mem
| sparing_step c m m' :
    reachable_sparing m -> spares_page_zero c m = true ->
    exec (run_command c) m = Some m' -> reachable_sparing m'.

(** Running a command stream as long as every command spares page 0. *)
Fixpoint run_sparing (cs : list command) (m : Mem.t) : option Mem.t :=
  match cs with
  | [] => Some m
  | c :: cs' =>
      if spares_page_zero c m then
        match exec (run_command c) m with
        | Some m' => run_sparing cs' m'
        | None => None
        end
      else None
  end.

(** The memory of [new_process] when it enters its loop: page
    [page_table] taken from the bitmap and recorded for [proc_num]. *)
Definition with_page_table (m : Mem.t) (proc_num page_table : Z) : Mem.t :=
  Mem.put (Mem.put m page_table 1) (PTP_OFFSET + proc_num) page_table.

(** A check of the cells [i .. i+n), for properties stated over a whole
    page. *)
Fixpoint all_below (n : nat) (i : Z) (P : Z -> bool) : bool :=
  match n with
  | O => true
  | S n' => P i && all_below n' (i + 1) P
  end.

(** ** Output

    What the program prints, as the sequence of its output calls.  A
    [printf] is kept as its format, written as in the source, and the
    values of its arguments; formatting itself is libc's. *)
Inductive output : Type :=
| Printf (format : string) (args : list Z)
| Putchar (c : Z)
| Fprintf_stderr (format : string).

(** The characters ['.'], ['#'] and ['\n']. *)
Definition dot : Z := 46.
Definition hash : Z := 35.
Definition newline : Z := 10.

(** The loop of [print_page_free_map], from index [i] with [n] iterations
    left. *)
Fixpoint page_free_map_loop (n : nat) (i : Z) : M (list output) :=
  match n with
  | O => ret []
  | S n' =>
      let addr := get_address 0 i in
      b <- load addr ;;
      let line :=
        Printf "%c" [if b =? 0 then dot else hash]
        :: (if Z.rem (i + 1) 16 =? 0 then [Putchar newline] else []) in
      rest <- page_free_map_loop n' (i + 1) ;;
      ret (line ++ rest)
  end.

(** [print_page_free_map] *)
Definition print_page_free_map : M (list output) :=
  rest <- page_free_map_loop 64 0 ;;
  ret (Printf "--- PAGE FREE MAP ---\n" [] :: rest).

(** The loop of [print_page_table], from index [i] with [n] iterations
    left. *)
Fixpoint page_table_loop (n : nat) (page_table i : Z) : M (list output) :=
  match n with
  | O => ret []
  | S n' =>
      let addr := get_address page_table i in
      page <- load addr ;;
      let line :=
        if negb (page =? 0) then [Printf "%02x -> %02x\n" [i; page]] else [] in
      rest <- page_table_loop n' page_table (i + 1) ;;
      ret (line ++ rest)
  end.

(** [print_page_table] *)
Definition print_page_table (proc_num : Z) : M (list output) :=
  page_table <- get_page_table proc_num ;;
  rest <- page_table_loop (Z.to_nat PAGE_COUNT) page_table 0 ;;
  ret (Printf "--- PROCESS %d PAGE TABLE ---\n" [proc_num] :: rest).

(** The [printf]s of [new_process], [store_value] and [load_value], from
    what the models of these functions return. *)
Definition report_output (r : report) : list output :=
  match r with
  | Created => []
  | OOM_page_table proc_num => [Printf "OOM: proc %d: page table\n" [proc_num]]
  | OOM_data_page proc_num => [Printf "OOM: proc %d: data page\n" [proc_num]]
  end.

Definition store_output (t : trace) : list output :=
  [Printf "Store proc %d: %d => %d, value=%d\n"
     [tr_proc t; tr_vaddr t; tr_addr t; tr_value t]].

Definition load_output (t : trace) : list output :=
  [Printf "Load proc %d: %d => %d, value=%d\n"
     [tr_proc t; tr_vaddr t; tr_addr t; tr_value t]].

(** Undefined behaviour other than an access outside [mem]. *)
Definition crash {A} : M A := fun _ => None.

(** ** [main]

    [args] is [argv[1]], ..., [argv[argc - 1]]; [atoi] is libc's.  A
    command short of an operand hands [argv[argc]], a null pointer, to
    [atoi]: undefined behaviour. *)
Section Main.

Variable atoi : string -> Z.

(** The loop of [main] over the arguments not yet read. *)
Fixpoint main_loop (args : list string) : M (list output) :=
  match args with
  | [] => ret []
  | cmd :: rest =>
      if String.eqb cmd "pfm" then
        out <- print_page_free_map ;;
        outs <- main_loop rest ;;
        ret (out ++ outs)
      else if String.eqb cmd "ppt" then
        match rest with
        | a :: rest' =>
            let proc_num := atoi a in
            out <- print_page_table proc_num ;;
            outs <- main_loop rest' ;;
            ret (out ++ outs)
        | _ => crash
        end
      else if String.eqb cmd "np" then
        match rest with
        | a :: b :: rest' =>
            let proc_num := atoi a in
            let page_count := atoi b in
            r <- new_process proc_num page_count ;;
            outs <- main_loop rest' ;;
            ret (report_output r ++ outs)
        | _ => crash
        end
      else if String.eqb cmd "kp" then
        match rest with
        | a :: rest' =>
            let proc_num := atoi a in
            kill_process proc_num ;;;
            main_loop rest'
        | _ => crash
        end
      else if String.eqb cmd "sb" then
        match rest with
        | a :: b :: c :: rest' =>
            let proc_num := atoi a in
            let vaddr := atoi b in
            let value := atoi c in
            t <- store_value proc_num vaddr value ;;
            outs <- main_loop rest' ;;
            ret (store_output t ++ outs)
        | _ => crash
        end
      else if String.eqb cmd "lb" then
        match rest with
        | a :: b :: rest' =>
            let proc_num := atoi a in
            let vaddr := atoi b in
            t <- load_value proc_num vaddr ;;
            outs <- main_loop rest' ;;
            ret (load_output t ++ outs)
        | _ => crash
        end
      else main_loop rest
  end.

(** [main]: exit status, output and final memory.  The array starts
    zeroed, as a C global does. *)
Definition main (args : list string) : option (Z * list output * Mem.t) :=
  if negb (PAGE_COUNT * PAGE_SIZE =? MEM_SIZE) then None
  else
    match args with
    | [] => Some (1, [Fprintf_stderr "usage: ptsim commands\n"], Mem.zeroed)
    | _ =>
        match (initialize_mem ;;; main_loop args) Mem.zeroed with
        | Some (outs, m) => Some (0, outs, m)
        | None => None
        end
    end.

(** The [np], [kp], [sb] and [lb] commands that a complete argument list
    holds, in order; [pfm], [ppt] with its operand and unknown words are
    passed over. *)
Inductive commands_of : list string -> list command -> Prop :=
| commands_nil : commands_of [] []
| commands_pfm rest cs :
    commands_of rest cs -> commands_of ("pfm"%string :: rest) cs
| commands_ppt a rest cs :
    commands_of rest cs -> commands_of ("ppt"%string :: a :: rest) cs
| commands_np a b rest cs :
    commands_of rest cs ->
    commands_of ("np"%string :: a :: b :: rest) (Np (atoi a) (atoi b) :: cs)
| commands_kp a rest cs :
    commands_of rest cs ->
    commands_of ("kp"%string :: a :: rest) (Kp (atoi a) :: cs)
| commands_sb a b c rest cs :
    commands_of rest cs ->
    commands_of ("sb"%string :: a :: b :: c :: rest)
                (Sb (atoi a) (atoi b) (atoi c) :: cs)
| commands_lb a b rest cs :
    commands_of rest cs ->
    commands_of ("lb"%string :: a :: b :: rest) (Lb (atoi a) (atoi b) :: cs)
| commands_other word rest cs :
    ~ In word ["pfm"; "ppt"; "np"; "kp"; "sb"; "lb"]%string ->
    commands_of rest cs -> commands_of (word :: rest) cs.

End Main.

(** ** Further observations *)

(** The characters that a free-map listing prints for the pages. *)
Definition map_chars (out : list output) : list Z :=
  flat_map (fun o => match o with
                     | Printf "%c" [c] => [c]
                     | _ => []
                     end) out.

(** The lines that a page-table listing prints, as (index, page) pairs. *)
Definition table_lines (out : list output) : list (Z * Z) :=
  flat_map (fun o => match o with
                     | Printf "%02x -> %02x\n" [i; page] => [(i, page)]
                     | _ => []
                     end) out.

(** States reachable from the initial memory without [store_value]. *)
Definition is_store (c : command) : bool :=
  match c with
  | Sb _ _ _ => true
  | _ => false
  end.

Inductive reachable_without_store : Mem.t -> Prop :=
| without_store_init : reachable_without_store initial_mem
| without_store_step c m m' :
    reachable_without_store m -> is_store c = false ->
    exec (run_command c) m = Some m' -> reachable_without_store m'.

(** A reading of plain decimal numerals with an optional sign, to run
    [main] on examples; it stands for libc's [atoi] on such arguments. *)
Fixpoint digits_value (s : string) (acc : Z) : Z :=
  match s with
  | EmptyString => acc
  | String c s' =>
      let d := Z.of_N (N_of_ascii c) - 48 in
      if (0 <=? d) && (d <=? 9) then digits_value s' (10 * acc + d) else acc
  end.

Definition decimal (s : string) : Z :=
  match s with
  | String "-" s' => - digits_value s' 0
  | String "+" s' => digits_value s' 0
  | _ => digits_value s 0
  end.

(** * Properties *)

(** ** The memory interface *)

Module MemFacts.

Lemma in_range_spec a : Mem.in_range a = true <-> 0 <= a < MEM_SIZE.
Proof. unfold Mem.in_range. rewrite andb_true_iff. lia. Qed.

Lemma wf_zeroed : Mem.wf Mem.zeroed.
Proof.
  split.
  - apply length_replicate.
  - apply Forall_replicate. lia.
Qed.

Lemma get_range m a b : Mem.get m a = Some b -> 0 <= a < MEM_SIZE.
Proof.
  unfold Mem.get. destruct (Mem.in_range a) eqn:E; [|discriminate].
  intros _. now apply in_range_spec.
Qed.

Lemma get_at m a :
  Mem.wf m -> 0 <= a < MEM_SIZE -> Mem.get m a = Some (Mem.at_ m a).
Proof.
  intros [Hlen _] Ha. unfold Mem.at_, Mem.get.
  rewrite (proj2 (in_range_spec a) Ha).
  destruct (m !! Z.to_nat a) eqn:E; [reflexivity|].
  apply lookup_ge_None in E. unfold MEM_SIZE in *. lia.
Qed.

Lemma at_byte m a : Mem.wf m -> 0 <= Mem.at_ m a < 256.
Proof.
  intros [_ Hb]. unfold Mem.at_, Mem.get.
  destruct (Mem.in_range a); [|simpl; lia].
  destruct (m !! Z.to_nat a) eqn:E; [|simpl; lia].
  simpl. rewrite Forall_lookup in Hb. exact (Hb _ _ E).
Qed.

Lemma at_outside m a : ~ 0 <= a < MEM_SIZE -> Mem.at_ m a = 0.
Proof.
  intros Ha. unfold Mem.at_, Mem.get.
  destruct (Mem.in_range a) eqn:E; [|reflexivity].
  apply in_range_spec in E. contradiction.
Qed.

Lemma wf_put m a v : Mem.wf m -> Mem.wf (Mem.put m a v).
Proof.
  intros [Hlen Hb]. split.
  - unfold Mem.put. now rewrite length_insert.
  - unfold Mem.put. apply Forall_insert; [assumption|].
    apply Z.mod_pos_bound. lia.
Qed.

Lemma at_put_same m a v :
  Mem.wf m -> 0 <= a < MEM_SIZE -> Mem.at_ (Mem.put m a v) a = v mod 256.
Proof.
  intros [Hlen _] Ha. unfold Mem.at_, Mem.get, Mem.put.
  rewrite (proj2 (in_range_spec a) Ha).
  rewrite list_lookup_insert_eq; [reflexivity|].
  unfold MEM_SIZE in *. lia.
Qed.

Lemma at_put_other m a v a' :
  0 <= a -> a' <> a -> Mem.at_ (Mem.put m a v) a' = Mem.at_ m a'.
Proof.
  intros Ha Hne. unfold Mem.at_, Mem.get, Mem.put.
  destruct (Mem.in_range a') eqn:E; [|reflexivity].
  apply in_range_spec in E.
  rewrite list_lookup_insert_ne; [reflexivity|]. lia.
Qed.

Lemma set_inv m a v m' :
  Mem.set m a v = Some m' -> 0 <= a < MEM_SIZE /\ m' = Mem.put m a v.
Proof.
  unfold Mem.set. destruct (Mem.in_range a) eqn:E; [|discriminate].
  intros [= <-]. split; [now apply in_range_spec|reflexivity].
Qed.

Lemma set_ok m a v :
  0 <= a < MEM_SIZE -> Mem.set m a v = Some (Mem.put m a v).
Proof.
  intros Ha. unfold Mem.set. now rewrite (proj2 (in_range_spec a) Ha).
Qed.

End MemFacts.

(** ** Inversion of monadic computations *)

Lemma bind_inv {A B} (c : M A) (k : A -> M B) m y m2 :
  bind c k m = Some (y, m2) ->
  exists x m1, c m = Some (x, m1) /\ k x m1 = Some (y, m2).
Proof.
  unfold bind. destruct (c m) as [[x m1]|]; [|discriminate]. eauto.
Qed.

Lemma bind_eq {A B} (c : M A) (k : A -> M B) m x m1 :
  c m = Some (x, m1) -> bind c k m = k x m1.
Proof. unfold bind. now intros ->. Qed.

Lemma ret_inv {A} (x y : A) m m' : ret x m = Some (y, m') -> y = x /\ m' = m.
Proof. unfold ret. now intros [= -> ->]. Qed.

Lemma load_inv a m b m' :
  Mem.wf m -> load a m = Some (b, m') ->
  m' = m /\ b = Mem.at_ m a /\ 0 <= a < MEM_SIZE.
Proof.
  intros Hwf. unfold load. destruct (Mem.get m a) as [b'|] eqn:E; [|discriminate].
  intros [= <- <-]. pose proof (MemFacts.get_range _ _ _ E) as Ha.
  rewrite (MemFacts.get_at _ _ Hwf Ha) in E. injection E as <-. auto.
Qed.

Lemma load_ok a m :
  Mem.wf m -> 0 <= a < MEM_SIZE -> load a m = Some (Mem.at_ m a, m).
Proof. intros Hwf Ha. unfold load. now rewrite MemFacts.get_at. Qed.

Lemma store_inv a v m u m' :
  store a v m = Some (u, m') -> 0 <= a < MEM_SIZE /\ m' = Mem.put m a v.
Proof.
  unfold store. destruct (Mem.set m a v) as [m1|] eqn:E; [|discriminate].
  intros [= _ <-]. now apply MemFacts.set_inv.
Qed.

Lemma store_ok a v m :
  0 <= a < MEM_SIZE -> store a v m = Some (tt, Mem.put m a v).
Proof. intros Ha. unfold store. now rewrite MemFacts.set_ok. Qed.

(** ** Address arithmetic *)

Lemma land_shiftl_low page offset :
  0 <= offset < 256 -> Z.land (Z.shiftl page 8) offset = 0.
Proof.
  intros Ho. apply Z.bits_inj'. intros n Hn.
  rewrite Z.land_spec, Z.bits_0.
  destruct (Z.ltb_spec n 8) as [Hlt|Hge].
  - now rewrite Z.shiftl_spec_low.
  - replace offset with (offset mod 2 ^ 8) by (apply Z.mod_small; lia).
    rewrite Z.mod_pow2_bits_high by lia. apply andb_false_r.
Qed.

Lemma get_address_add page offset :
  0 <= offset < PAGE_SIZE -> get_address page offset = page * 256 + offset.
Proof.
  unfold PAGE_SIZE, get_address, PAGE_SHIFT. intros Ho.
  pose proof (Z.add_lor_land (Z.shiftl page 8) offset) as H.
  rewrite land_shiftl_low in H by assumption.
  rewrite Z.shiftl_mul_pow2 in H by lia. rewrite Z.shiftl_mul_pow2 by lia.
  change (2 ^ 8) with 256 in *. lia.
Qed.

Lemma get_address_zero_page offset : get_address 0 offset = offset.
Proof. unfold get_address. now rewrite Z.shiftl_0_l, Z.lor_0_l. Qed.

Lemma pte_index_of_get_address page offset :
  0 <= offset < PAGE_SIZE -> pte_index_of (get_address page offset) = page.
Proof.
  intros Ho. rewrite get_address_add by assumption.
  unfold pte_index_of, PAGE_SIZE in *. rewrite Z.shiftr_div_pow2 by lia.
  change (2 ^ 8) with 256. rewrite Z.div_add_l by lia.
  rewrite Z.div_small by lia. lia.
Qed.

Lemma offset_of_get_address page offset :
  0 <= offset < PAGE_SIZE -> offset_of (get_address page offset) = offset.
Proof.
  intros Ho. rewrite get_address_add by assumption.
  unfold offset_of, PAGE_SIZE in *. change 255 with (Z.ones 8).
  rewrite Z.land_ones by lia. change (2 ^ 8) with 256.
  rewrite Z.add_comm, Z.mod_add by lia. apply Z.mod_small. lia.
Qed.

Lemma offset_of_range vaddr : 0 <= offset_of vaddr < PAGE_SIZE.
Proof.
  unfold offset_of, PAGE_SIZE. change 255 with (Z.ones 8).
  rewrite Z.land_ones by lia. apply Z.mod_pos_bound. reflexivity.
Qed.

(** ** The allocator *)

Lemma count_free_bounds n i m : 0 <= count_free n i m <= Z.of_nat n.
Proof.
  revert i. induction n as [|n IH]; intros i; simpl count_free; [lia|].
  specialize (IH (i + 1)). destruct (Mem.at_ m i =? 0); lia.
Qed.

Lemma count_free_ext n i m m' :
  (forall a, i <= a < i + Z.of_nat n -> Mem.at_ m' a = Mem.at_ m a) ->
  count_free n i m' = count_free n i m.
Proof.
  revert i. induction n as [|n IH]; intros i H; simpl count_free; [reflexivity|].
  rewrite H by lia. rewrite IH; [reflexivity|]. intros a Ha. apply H. lia.
Qed.

(** Overwriting cells can only use up free pages when no nonzero cell
    becomes zero. *)
Lemma count_free_mono n i m m' :
  (forall a, i <= a < i + Z.of_nat n -> Mem.at_ m a <> 0 -> Mem.at_ m' a <> 0) ->
  count_free n i m' <= count_free n i m.
Proof.
  revert i. induction n as [|n IH]; intros i H; simpl count_free; [lia|].
  assert (count_free n (i + 1) m' <= count_free n (i + 1) m) as Hle.
  { apply IH. intros a Ha. apply H. lia. }
  specialize (H i ltac:(lia)).
  destruct (Z.eqb_spec (Mem.at_ m i) 0), (Z.eqb_spec (Mem.at_ m' i) 0); lia.
Qed.

(** Taking one free cell uses up exactly one free page. *)
Lemma count_free_take n i m m' j :
  i <= j < i + Z.of_nat n ->
  Mem.at_ m j = 0 -> Mem.at_ m' j <> 0 ->
  (forall a, a <> j -> Mem.at_ m' a = Mem.at_ m a) ->
  count_free n i m' = count_free n i m - 1.
Proof.
  revert i. induction n as [|n IH]; intros i Hj H0 H1 Hframe; [lia|].
  simpl count_free. destruct (Z.eq_dec i j) as [->|Hne].
  - rewrite H0. simpl. destruct (Z.eqb_spec (Mem.at_ m' j) 0); [contradiction|].
    rewrite (count_free_ext n (j + 1) m m'); [lia|].
    intros a Ha. apply Hframe. lia.
  - rewrite Hframe by assumption. rewrite IH by (assumption || lia). lia.
Qed.

Lemma allocate_scan_spec n i m :
  Mem.wf m -> 0 <= i -> i + Z.of_nat n <= MEM_SIZE ->
  (exists j, i <= j < i + Z.of_nat n /\ Mem.at_ m j = 0 /\
             (forall j', i <= j' < j -> Mem.at_ m j' <> 0) /\
             allocate_scan n i m = Some (j, Mem.put m j 1))
  \/ ((forall j, i <= j < i + Z.of_nat n -> Mem.at_ m j <> 0) /\
      allocate_scan n i m = Some (-1, m)).
Proof.
  intros Hwf. revert i. induction n as [|n IH]; intros i Hi Hn.
  - right. split; [lia|reflexivity].
  - simpl allocate_scan. rewrite (bind_eq _ _ _ _ _ (load_ok i m Hwf ltac:(lia))).
    destruct (Z.eqb_spec (Mem.at_ m i) 0) as [Hz|Hnz].
    + left. exists i. repeat split; [lia|lia|assumption|lia|].
      now rewrite (bind_eq _ _ _ _ _ (store_ok i 1 m ltac:(lia))).
    + destruct (IH (i + 1) ltac:(lia) ltac:(lia))
        as [(j & Hj & Hz & Hlow & Heq)|[Hall Heq]].
      * left. exists j. repeat split; [lia|lia|assumption| |assumption].
        intros j' Hj'. destruct (Z.eq_dec j' i) as [->|]; [assumption|].
        apply Hlow. lia.
      * right. split; [|assumption].
        intros j Hj. destruct (Z.eq_dec j i) as [->|]; [assumption|].
        apply Hall. lia.
Qed.

Lemma allocate_next_page_cases m :
  Mem.wf m ->
  (exists j, 0 <= j < PTP_OFFSET /\ Mem.at_ m j = 0 /\
             (forall j', 0 <= j' < j -> Mem.at_ m j' <> 0) /\
             allocate_next_page m = Some (j, Mem.put m j 1))
  \/ ((forall j, 0 <= j < PTP_OFFSET -> Mem.at_ m j <> 0) /\
      allocate_next_page m = Some (-1, m)).
Proof.
  intros Hwf. unfold allocate_next_page.
  destruct (allocate_scan_spec (Z.to_nat PTP_OFFSET) 0 m Hwf)
    as [(j & Hj & H)|[Hall Heq]]; try (unfold PTP_OFFSET, MEM_SIZE; lia).
  - left. exists j. split; [|exact H]. unfold PTP_OFFSET in *. lia.
  - right. split; [|exact Heq]. intros j Hj. apply Hall.
    unfold PTP_OFFSET in *. lia.
Qed.

Lemma allocate_next_page_inv m page m' :
  Mem.wf m -> allocate_next_page m = Some (page, m') ->
  (page = -1 /\ m' = m /\ forall j, 0 <= j < PTP_OFFSET -> Mem.at_ m j <> 0)
  \/ (0 <= page < PTP_OFFSET /\ Mem.at_ m page = 0 /\
      (forall j, 0 <= j < page -> Mem.at_ m j <> 0) /\
      m' = Mem.put m page 1).
Proof.
  intros Hwf Heq.
  destruct (allocate_next_page_cases m Hwf) as [(j & Hj & Hz & Hlow & E)|[Hall E]];
    rewrite E in Heq; injection Heq as <- <-; [right|left]; auto.
Qed.

(** The memory after a successful allocation of [page]. *)
Lemma allocated_facts m page :
  Mem.wf m -> 0 <= page < PTP_OFFSET -> Mem.at_ m page = 0 ->
  let m' := Mem.put m page 1 in
  Mem.wf m' /\ Mem.at_ m' page = 1 /\
  (forall a, a <> page -> Mem.at_ m' a = Mem.at_ m a) /\
  (forall a, Mem.at_ m a <> 0 -> Mem.at_ m' a = Mem.at_ m a) /\
  free_pages m' = free_pages m - 1.
Proof.
  intros Hwf Hp Hz m'. unfold PTP_OFFSET in Hp.
  assert (Mem.at_ m' page = 1) as H1.
  { unfold m'. rewrite MemFacts.at_put_same; [reflexivity|assumption|].
    unfold MEM_SIZE. lia. }
  assert (forall a, a <> page -> Mem.at_ m' a = Mem.at_ m a) as Hframe.
  { intros a Ha. apply MemFacts.at_put_other; [lia|assumption]. }
  split; [now apply MemFacts.wf_put|].
  split; [assumption|]. split; [assumption|]. split.
  - intros a Ha. apply Hframe. congruence.
  - apply (count_free_take _ _ _ _ page); try assumption;
      unfold PTP_OFFSET; lia.
Qed.

(** ** Killing a process *)

(** What the loop of [kill_process] can do to a cell: nothing, or clear it
    because its index is a nonzero entry of the scanned page. *)
Lemma free_mapped_pages_effect n T i m m' :
  Mem.wf m -> free_mapped_pages n T i m = Some (tt, m') ->
  Mem.wf m' /\
  forall a, Mem.at_ m' a = Mem.at_ m a \/
            (Mem.at_ m' a = 0 /\ a <> 0 /\
             exists j, i <= j < i + Z.of_nat n /\ Mem.at_ m (get_address T j) = a).
Proof.
  revert i m. induction n as [|n IH]; intros i m Hwf Hrun.
  - apply ret_inv in Hrun as [_ ->]. auto.
  - simpl free_mapped_pages in Hrun.
    apply bind_inv in Hrun as (page & m0 & Hload & Hrun).
    apply load_inv in Hload as (-> & -> & Ha); [|assumption].
    apply bind_inv in Hrun as ([] & m1 & Hfree & Hrun).
    set (page := Mem.at_ m (get_address T i)) in *.
    assert (Mem.wf m1 /\
            forall a, Mem.at_ m1 a = Mem.at_ m a \/
                      (Mem.at_ m1 a = 0 /\ a <> 0 /\ a = page)) as [Hwf1 Hstep].
    { destruct (Z.eqb_spec page 0) as [Hz|Hnz]; simpl in Hfree.
      - apply ret_inv in Hfree as [_ ->]. auto.
      - apply store_inv in Hfree as [Hr ->]. split.
        + now apply MemFacts.wf_put.
        + intros a. destruct (Z.eq_dec a page) as [->|Hne].
          * right. rewrite MemFacts.at_put_same by assumption. auto.
          * left. apply MemFacts.at_put_other; [lia|assumption]. }
    destruct (IH _ _ Hwf1 Hrun) as [Hwf' Hrest]. split; [assumption|].
    intros a. destruct (Hrest a) as [Hsame|(Hz & Hnz & j & Hj & Hentry)].
    + destruct (Hstep a) as [Hsame1|(Hz1 & Hnz1 & ->)].
      * left. congruence.
      * right. repeat split; [congruence|assumption|].
        exists i. split; [lia|reflexivity].
    + right. repeat split; [assumption|assumption|].
      exists j. split; [lia|].
      destruct (Hstep (get_address T j)) as [Hsame1|(Hz1 & _)]; congruence.
Qed.

(** The loop does free every page named by a nonzero entry, when the page
    table is not page 0 (its entries then lie outside the cells the loop
    writes). *)
Lemma free_mapped_pages_frees n T i m m' :
  Mem.wf m -> 1 <= T -> 0 <= i -> i + Z.of_nat n <= PAGE_SIZE ->
  free_mapped_pages n T i m = Some (tt, m') ->
  forall j, i <= j < i + Z.of_nat n ->
    Mem.at_ m (get_address T j) <> 0 ->
    Mem.at_ m' (Mem.at_ m (get_address T j)) = 0.
Proof.
  revert i m. induction n as [|n IH]; intros i m Hwf HT Hi Hn Hrun j Hj Hnz; [lia|].
  simpl free_mapped_pages in Hrun.
  apply bind_inv in Hrun as (page & m0 & Hload & Hrun).
  apply load_inv in Hload as (-> & -> & Ha); [|assumption].
  apply bind_inv in Hrun as ([] & m1 & Hfree & Hrun).
  set (page := Mem.at_ m (get_address T i)) in *.
  pose proof (MemFacts.at_byte m (get_address T i) Hwf) as Hbyte. fold page in Hbyte.
  assert (Mem.wf m1 /\ (page <> 0 -> Mem.at_ m1 page = 0) /\
          forall a, 256 <= a -> Mem.at_ m1 a = Mem.at_ m a) as (Hwf1 & Hz1 & Hhigh).
  { destruct (Z.eqb_spec page 0) as [Hz|Hnz']; simpl in Hfree.
    - apply ret_inv in Hfree as [_ ->]. split; [assumption|]. split; [lia|auto].
    - apply store_inv in Hfree as [Hr ->].
      split; [now apply MemFacts.wf_put|]. split.
      + intros _. now rewrite MemFacts.at_put_same.
      + intros a Ha'. apply MemFacts.at_put_other; lia. }
  destruct (Z.eq_dec j i) as [->|Hne].
  - fold page. fold page in Hnz.
    destruct (free_mapped_pages_effect _ _ _ _ _ Hwf1 Hrun) as [_ Hrest].
    destruct (Hrest page) as [Hsame|(Hz & _)]; [|assumption].
    rewrite Hsame. auto.
  - assert (256 <= get_address T j) as Hge.
    { rewrite get_address_add by lia. unfold PAGE_SIZE in *. lia. }
    rewrite <- (Hhigh (get_address T j) Hge).
    apply (IH (i + 1) m1); try assumption; try lia.
    now rewrite (Hhigh (get_address T j) Hge).
Qed.

(** The loop never leaves the array when the page table is a real page. *)
Lemma free_mapped_pages_ok n T i m :
  Mem.wf m -> 0 <= T < PAGE_COUNT -> 0 <= i -> i + Z.of_nat n <= PAGE_SIZE ->
  exists m', free_mapped_pages n T i m = Some (tt, m').
Proof.
  revert i m. induction n as [|n IH]; intros i m Hwf HT Hi Hn.
  - eexists. reflexivity.
  - simpl free_mapped_pages.
    assert (0 <= get_address T i < MEM_SIZE) as Ha.
    { rewrite get_address_add by lia.
      unfold PAGE_COUNT, PAGE_SIZE, MEM_SIZE in *. lia. }
    rewrite (bind_eq _ _ _ _ _ (load_ok _ m Hwf Ha)).
    set (page := Mem.at_ m (get_address T i)).
    pose proof (MemFacts.at_byte m (get_address T i) Hwf) as Hbyte. fold page in Hbyte.
    destruct (Z.eqb_spec page 0) as [Hz|Hnz]; simpl.
    + unfold bind at 1, ret at 1. apply IH; try assumption; lia.
    + rewrite (bind_eq _ _ _ _ _ (store_ok page 0 m ltac:(unfold MEM_SIZE; lia))).
      apply IH; try assumption; try lia. now apply MemFacts.wf_put.
Qed.

Lemma directory_address proc_num :
  get_address 0 (PTP_OFFSET + proc_num) = PTP_OFFSET + proc_num.
Proof. apply get_address_zero_page. Qed.

Lemma get_page_table_inv p m T m' :
  Mem.wf m -> get_page_table p m = Some (T, m') ->
  m' = m /\ T = directory_entry m p /\ 0 <= PTP_OFFSET + p < MEM_SIZE.
Proof.
  intros Hwf H. unfold get_page_table in H. rewrite directory_address in H.
  now apply load_inv in H.
Qed.

Lemma get_page_table_ok p m :
  Mem.wf m -> 0 <= PTP_OFFSET + p < MEM_SIZE ->
  get_page_table p m = Some (directory_entry m p, m).
Proof.
  intros Hwf Hp. unfold get_page_table. rewrite directory_address.
  now apply load_ok.
Qed.

Lemma kill_process_inv p m u m' :
  Mem.wf m -> kill_process p m = Some (u, m') ->
  0 <= PTP_OFFSET + p < MEM_SIZE /\
  exists m1,
    free_mapped_pages (Z.to_nat PAGE_SIZE) (directory_entry m p) 0 m = Some (tt, m1) /\
    m' = Mem.put m1 (directory_entry m p) 0.
Proof.
  intros Hwf H. unfold kill_process in H.
  apply bind_inv in H as (T & m0 & Hget & H).
  apply get_page_table_inv in Hget as (-> & -> & Hp); [|assumption].
  apply bind_inv in H as ([] & m1 & Hloop & H).
  apply store_inv in H as [_ ->]. eauto.
Qed.

(** A cell after [kill_process]: unchanged, or cleared because it is the
    page-table page or is named by one of its nonzero entries. *)
Lemma kill_process_effect p m u m' :
  Mem.wf m -> kill_process p m = Some (u, m') ->
  let T := directory_entry m p in
  Mem.wf m' /\ Mem.at_ m' T = 0 /\
  forall a, Mem.at_ m' a = Mem.at_ m a \/
            (Mem.at_ m' a = 0 /\
             (a = T \/ (a <> 0 /\ exists j, 0 <= j < PAGE_SIZE /\ pte m T j = a))).
Proof.
  intros Hwf H T. apply kill_process_inv in H as (Hp & m1 & Hloop & ->); [|assumption].
  fold T in Hloop |- *.
  destruct (free_mapped_pages_effect _ _ _ _ _ Hwf Hloop) as [Hwf1 Hrest].
  pose proof (MemFacts.at_byte m (PTP_OFFSET + p) Hwf) as HT.
  change (Mem.at_ m (PTP_OFFSET + p)) with T in HT.
  assert (Mem.at_ (Mem.put m1 T 0) T = 0) as HzT.
  { rewrite MemFacts.at_put_same; [reflexivity|assumption|unfold MEM_SIZE; lia]. }
  split; [now apply MemFacts.wf_put|]. split; [assumption|].
  intros a. destruct (Z.eq_dec a T) as [->|Hne].
  - right. auto.
  - rewrite MemFacts.at_put_other by (lia || assumption).
    destruct (Hrest a) as [Hsame|(Hz & Hnz & j & Hj & Hentry)]; [now left|].
    right. split; [assumption|]. right. split; [assumption|].
    exists j. split; [|assumption]. unfold PAGE_SIZE in *. lia.
Qed.

(** Every page named by a nonzero entry is free after [kill_process], when
    the process has a page table other than page 0. *)
Lemma kill_process_frees p m u m' :
  Mem.wf m -> kill_process p m = Some (u, m') ->
  let T := directory_entry m p in
  1 <= T ->
  forall j, 0 <= j < PAGE_SIZE -> pte m T j <> 0 -> Mem.at_ m' (pte m T j) = 0.
Proof.
  intros Hwf H T HT j Hj Hnz.
  pose proof (kill_process_effect _ _ _ _ Hwf H) as (_ & _ & Heff).
  apply kill_process_inv in H as (Hp & m1 & Hloop & ->); [|assumption].
  fold T in Hloop, Heff.
  assert (Mem.at_ m1 (pte m T j) = 0) as Hz.
  { apply (free_mapped_pages_frees _ _ _ _ _ Hwf HT (Z.le_refl 0)) with (j := j) in Hloop;
      try assumption; unfold PAGE_SIZE in *; lia. }
  destruct (Heff (pte m T j)) as [Hsame|[Hz' _]]; [|assumption].
  destruct (Z.eq_dec (pte m T j) T) as [E|Hne].
  - rewrite E. rewrite MemFacts.at_put_same; [reflexivity| |].
    + destruct (free_mapped_pages_effect _ _ _ _ _ Hwf Hloop) as [Hwf1 _]. assumption.
    + pose proof (MemFacts.at_byte m (PTP_OFFSET + p) Hwf) as HTb.
      change (Mem.at_ m (PTP_OFFSET + p)) with T in HTb. unfold MEM_SIZE. lia.
  - rewrite MemFacts.at_put_other; [assumption|lia|assumption].
Qed.

(** [kill_process] runs to completion when the directory entry is a page
    number. *)
Lemma kill_process_ok p m :
  Mem.wf m -> 0 <= PTP_OFFSET + p < MEM_SIZE ->
  0 <= directory_entry m p < PAGE_COUNT ->
  exists m', kill_process p m = Some (tt, m').
Proof.
  intros Hwf Hp HT. unfold kill_process.
  rewrite (bind_eq _ _ _ _ _ (get_page_table_ok p m Hwf Hp)).
  destruct (free_mapped_pages_ok (Z.to_nat PAGE_SIZE) (directory_entry m p) 0 m)
    as [m1 Hloop]; try assumption; try (unfold PAGE_SIZE; lia).
  rewrite (bind_eq _ _ _ _ _ Hloop).
  rewrite store_ok; [eauto|]. unfold PAGE_COUNT, MEM_SIZE in *. lia.
Qed.

(** With page 0 as the page table the loop is the scan of the
    specification. *)
Lemma free_mapped_pages_page_zero n i m :
  Mem.wf m -> 0 <= i -> i + Z.of_nat n <= MEM_SIZE ->
  free_mapped_pages n 0 i m = Some (tt, scan_page_zero n i m).
Proof.
  revert i m. induction n as [|n IH]; intros i m Hwf Hi Hn; [reflexivity|].
  simpl free_mapped_pages. simpl scan_page_zero.
  rewrite get_address_zero_page.
  rewrite (bind_eq _ _ _ _ _ (load_ok i m Hwf ltac:(lia))).
  pose proof (MemFacts.at_byte m i Hwf) as Hbyte.
  destruct (Z.eqb_spec (Mem.at_ m i) 0) as [Hz|Hnz]; simpl.
  - unfold bind at 1, ret at 1. apply IH; try assumption; lia.
  - rewrite (bind_eq _ _ _ _ _
               (store_ok (Mem.at_ m i) 0 m ltac:(unfold MEM_SIZE; lia))).
    apply IH; try lia. now apply MemFacts.wf_put.
Qed.

(** ** Creating a process *)

Lemma new_process_inv p k m r m' :
  Mem.wf m -> new_process p k m = Some (r, m') ->
  (r = OOM_page_table p /\ m' = m /\ allocate_next_page m = Some (-1, m))
  \/ (exists T,
        0 <= T < PTP_OFFSET /\ Mem.at_ m T = 0 /\
        (forall j, 0 <= j < T -> Mem.at_ m j <> 0) /\
        allocate_next_page m = Some (T, Mem.put m T 1) /\
        0 <= PTP_OFFSET + p < MEM_SIZE /\
        map_data_pages (Z.to_nat k) p T 0 (with_page_table m p T) = Some (r, m')).
Proof.
  intros Hwf H. unfold new_process in H.
  apply bind_inv in H as (T & m1 & Halloc & H).
  pose proof Halloc as Halloc'.
  apply allocate_next_page_inv in Halloc; [|assumption].
  destruct Halloc as [(-> & -> & Hfull)|(HT & Hz & Hlow & ->)].
  - simpl in H. apply ret_inv in H as [-> ->]. auto.
  - destruct (Z.eqb_spec T (-1)) as [E|_]; [lia|].
    apply bind_inv in H as ([] & m2 & Hset & H).
    unfold set_page_table in Hset. rewrite directory_address in Hset.
    apply store_inv in Hset as [Hp ->].
    right. exists T. auto 10.
Qed.

Lemma new_process_created p k m T :
  Mem.wf m -> 0 <= PTP_OFFSET + p < MEM_SIZE ->
  0 <= T < PTP_OFFSET ->
  allocate_next_page m = Some (T, Mem.put m T 1) ->
  new_process p k m =
  map_data_pages (Z.to_nat k) p T 0 (with_page_table m p T).
Proof.
  intros Hwf Hp HT Halloc. unfold new_process.
  rewrite (bind_eq _ _ _ _ _ Halloc).
  destruct (Z.eqb_spec T (-1)) as [E|_]; [lia|].
  unfold set_page_table. rewrite directory_address.
  now rewrite (bind_eq _ _ _ _ _ (store_ok _ T _ Hp)).
Qed.

(** The memory at the entry of the loop of [new_process]. *)
Lemma with_page_table_facts m p T :
  Mem.wf m -> 0 <= p < PAGE_COUNT ->
  0 <= T < PTP_OFFSET -> Mem.at_ m T = 0 ->
  (forall j, 0 <= j < T -> Mem.at_ m j <> 0) ->
  let m0 := with_page_table m p T in
  Mem.wf m0 /\ Mem.at_ m0 0 <> 0 /\ Mem.at_ m0 T = 1 /\
  directory_entry m0 p = T /\
  (forall a, a <> T -> a <> PTP_OFFSET + p -> Mem.at_ m0 a = Mem.at_ m a) /\
  free_pages m0 = free_pages m - 1.
Proof.
  intros Hwf Hp HT Hz Hlow m0.
  destruct (allocated_facts m T Hwf HT Hz) as (Hwf1 & H1 & Hframe1 & _ & Hfree1).
  unfold PAGE_COUNT, PTP_OFFSET in *.
  assert (forall a, a <> 64 + p -> Mem.at_ m0 a = Mem.at_ (Mem.put m T 1) a) as Hframe.
  { intros a Ha. unfold m0, with_page_table, PTP_OFFSET.
    apply MemFacts.at_put_other; [lia|assumption]. }
  split; [now apply MemFacts.wf_put|].
  split.
  { rewrite Hframe by lia. destruct (Z.eq_dec T 0) as [->|Hne].
    - rewrite H1. lia.
    - rewrite Hframe1 by lia. apply Hlow. lia. }
  split; [rewrite Hframe by lia; assumption|].
  split.
  { unfold directory_entry, m0, with_page_table, PTP_OFFSET.
    rewrite MemFacts.at_put_same; [apply Z.mod_small; lia|assumption|].
    unfold MEM_SIZE. lia. }
  split.
  { intros a Ha1 Ha2. rewrite Hframe by assumption. now apply Hframe1. }
  rewrite <- Hfree1. apply count_free_ext. intros a Ha. apply Hframe.
  unfold PTP_OFFSET in Ha. lia.
Qed.

(** The loop of [new_process], for any page table: every turn uses up a
    free page, every entry it writes is nonzero, and it leaves alone every
    cell that is allocated or lies past the bitmap, the entries it writes
    apart. *)
Lemma map_data_pages_frame n p T i m m' :
  Mem.wf m -> 0 <= T < PAGE_COUNT -> Mem.at_ m 0 <> 0 ->
  0 <= i -> i + free_pages m <= PAGE_COUNT ->
  map_data_pages n p T i m = Some (Created, m') ->
  Mem.wf m' /\ Mem.at_ m' 0 <> 0 /\
  Z.of_nat n + free_pages m' <= free_pages m /\
  (forall a, Mem.at_ m a <> 0 \/ PTP_OFFSET <= a ->
             (forall j, i <= j < i + Z.of_nat n -> a <> get_address T j) ->
             Mem.at_ m' a = Mem.at_ m a) /\
  (forall j, i <= j < i + Z.of_nat n -> pte m' T j <> 0).
Proof.
  revert i m. induction n as [|n IH]; intros i m Hwf HT H0 Hi Hfree Hrun.
  - apply ret_inv in Hrun as [_ ->].
    split; [assumption|]. split; [assumption|]. split; [lia|].
    split; [reflexivity|lia].
  - simpl map_data_pages in Hrun.
    apply bind_inv in Hrun as (page & m1 & Halloc & Hrun).
    apply allocate_next_page_inv in Halloc; [|assumption].
    destruct Halloc as [(-> & -> & Hfull)|(Hpage & Hz & Hlow & ->)].
    { simpl in Hrun. apply ret_inv in Hrun as [? _]. discriminate. }
    destruct (Z.eqb_spec page (-1)) as [E|_]; [lia|].
    apply bind_inv in Hrun as ([] & m2 & Hstore & Hrun).
    apply store_inv in Hstore as [Haddr ->].
    destruct (allocated_facts m page Hwf Hpage Hz)
      as (Hwf1 & H1 & Hframe1 & Hkeep1 & Hfree1).
    set (m1 := Mem.put m page 1) in *.
    set (addr := get_address T i) in *.
    set (m2 := Mem.put m1 addr page) in *.
    pose proof (count_free_bounds (Z.to_nat PTP_OFFSET) 0 m1) as Hb1.
    fold (free_pages m1) in Hb1.
    assert (page <> 0) as Hpnz by congruence.
    unfold PAGE_COUNT, PTP_OFFSET, PAGE_SIZE in *.
    assert (Mem.at_ m2 addr = page) as Hentry.
    { unfold m2. rewrite MemFacts.at_put_same by assumption.
      apply Z.mod_small. lia. }
    assert (forall a, a <> addr -> Mem.at_ m2 a = Mem.at_ m1 a) as Hframe2.
    { intros a Ha. apply MemFacts.at_put_other; [lia|assumption]. }
    assert (forall a, Mem.at_ m1 a <> 0 -> Mem.at_ m2 a <> 0) as Hkeep2.
    { intros a Ha. destruct (Z.eq_dec a addr) as [->|Hne]; [congruence|].
      now rewrite Hframe2. }
    assert (free_pages m2 <= free_pages m1) as Hfree2.
    { apply count_free_mono. intros a _. apply Hkeep2. }
    assert (Mem.wf m2) as Hwf2 by now apply MemFacts.wf_put.
    assert (Mem.at_ m2 0 <> 0) as H02.
    { apply Hkeep2. now rewrite Hkeep1. }
    destruct (IH (i + 1) m2 Hwf2 HT H02 ltac:(lia) ltac:(lia) Hrun)
      as (Hwf' & H0' & Hfree' & Hframe' & Hentries').
    assert (forall j, i < j < i + 1 + Z.of_nat n -> addr <> get_address T j) as Hinj.
    { intros j Hj. pose proof (count_free_bounds (Z.to_nat 64) 0 m') as Hb'.
      fold PTP_OFFSET in Hb'. fold (free_pages m') in Hb'.
      unfold addr. rewrite !get_address_add by (unfold PAGE_SIZE; lia). lia. }
    split; [assumption|]. split; [assumption|]. split; [lia|]. split.
    + intros a Ha Hnot.
      assert (a <> addr) as Hne by (apply Hnot; lia).
      assert (a <> page) as Hne' by (destruct Ha; [congruence|lia]).
      rewrite Hframe'; [rewrite Hframe2, Hframe1 by assumption; reflexivity| |].
      * rewrite Hframe2, Hframe1 by assumption. assumption.
      * intros j Hj. apply Hnot. lia.
    + intros j Hj. destruct (Z.eq_dec j i) as [->|Hne].
      * unfold pte. fold addr. rewrite Hframe'; [congruence|left; congruence|].
        intros j Hj'. apply Hinj. lia.
      * apply Hentries'. lia.
Qed.

(** One more turn of the loop, spelled out. *)
Lemma map_data_pages_step n p T i m page :
  Mem.wf m -> 0 <= page < PTP_OFFSET ->
  allocate_next_page m = Some (page, Mem.put m page 1) ->
  0 <= get_address T i < MEM_SIZE ->
  map_data_pages (S n) p T i m =
  map_data_pages n p T (i + 1) (Mem.put (Mem.put m page 1) (get_address T i) page).
Proof.
  intros Hwf Hpage Halloc Haddr. simpl map_data_pages.
  rewrite (bind_eq _ _ _ _ _ Halloc).
  destruct (Z.eqb_spec page (-1)) as [E|_]; [lia|].
  now rewrite (bind_eq _ _ _ _ _ (store_ok _ page _ Haddr)).
Qed.

(** The loop never reports a page-table failure. *)
Lemma map_data_pages_report n p T i m q m' :
  map_data_pages n p T i m <> Some (OOM_page_table q, m').
Proof.
  revert i m. induction n as [|n IH]; intros i m H.
  - apply ret_inv in H as [? _]. discriminate.
  - simpl map_data_pages in H.
    apply bind_inv in H as (page & m1 & Halloc & H).
    destruct (page =? -1).
    + apply ret_inv in H as [? _]. discriminate.
    + apply bind_inv in H as ([] & m2 & _ & H). exact (IH _ _ H).
Qed.

(** When the loop stops on a failed allocation, the memory is the one a
    complete run of fewer turns leaves, and it has no free page. *)
Lemma map_data_pages_oom n p T i m q m' :
  Mem.wf m -> map_data_pages n p T i m = Some (OOM_data_page q, m') ->
  exists n', (n' < n)%nat /\ q = p /\
             map_data_pages n' p T i m = Some (Created, m') /\
             allocate_next_page m' = Some (-1, m').
Proof.
  revert i m. induction n as [|n IH]; intros i m Hwf H.
  - apply ret_inv in H as [? _]. discriminate.
  - pose proof H as Hrun. simpl map_data_pages in H.
    apply bind_inv in H as (page & m1 & Halloc & H).
    pose proof Halloc as Halloc'.
    apply allocate_next_page_inv in Halloc; [|assumption].
    destruct Halloc as [(-> & -> & Hfull)|(Hpage & Hz & Hlow & ->)].
    + simpl in H. apply ret_inv in H as [[= ->] ->].
      exists O. split; [lia|]. auto.
    + destruct (Z.eqb_spec page (-1)) as [E|_]; [lia|].
      apply bind_inv in H as ([] & m2 & Hstore & H).
      apply store_inv in Hstore as [Haddr ->].
      assert (Mem.wf (Mem.put (Mem.put m page 1) (get_address T i) page)) as Hwf2
        by (do 2 apply MemFacts.wf_put; assumption).
      destruct (IH _ _ Hwf2 H) as (n' & Hlt & -> & Hpre & Hfull).
      exists (S n'). split; [lia|]. split; [reflexivity|]. split; [|assumption].
      now rewrite (map_data_pages_step n' p T i m page).
Qed.

(** Entry [j] of the page table holds, at the end of the loop, the page
    that the allocation of turn [j] returned. *)
Lemma map_data_pages_entries n p T i m m' :
  Mem.wf m -> 0 <= T < PAGE_COUNT -> Mem.at_ m 0 <> 0 ->
  0 <= i -> i + free_pages m <= PAGE_COUNT ->
  map_data_pages n p T i m = Some (Created, m') ->
  forall j, i <= j < i + Z.of_nat n ->
    1 <= pte m' T j < PTP_OFFSET /\
    exists mj mj',
      map_data_pages (Z.to_nat (j - i)) p T i m = Some (Created, mj) /\
      allocate_next_page mj = Some (pte m' T j, mj').
Proof.
  revert i m. induction n as [|n IH]; intros i m Hwf HT H0 Hi Hfree Hrun j Hj; [lia|].
  pose proof Hrun as Hrun'. simpl map_data_pages in Hrun.
  apply bind_inv in Hrun as (page & m1 & Halloc & Hrun).
  pose proof Halloc as Halloc'.
  apply allocate_next_page_inv in Halloc; [|assumption].
  destruct Halloc as [(-> & -> & Hfull)|(Hpage & Hz & Hlow & ->)].
  { simpl in Hrun. apply ret_inv in Hrun as [? _]. discriminate. }
  destruct (Z.eqb_spec page (-1)) as [E|_]; [lia|].
  apply bind_inv in Hrun as ([] & m2 & Hstore & Hrun).
  apply store_inv in Hstore as [Haddr ->].
  destruct (allocated_facts m page Hwf Hpage Hz)
    as (Hwf1 & H1 & Hframe1 & Hkeep1 & Hfree1).
  set (m1 := Mem.put m page 1) in *.
  set (addr := get_address T i) in *.
  set (m2 := Mem.put m1 addr page) in *.
  pose proof (count_free_bounds (Z.to_nat PTP_OFFSET) 0 m1) as Hb1.
  fold (free_pages m1) in Hb1.
  assert (page <> 0) as Hpnz by congruence.
  unfold PAGE_COUNT, PTP_OFFSET in *.
  assert (Mem.at_ m2 addr = page) as Hentry.
  { unfold m2. rewrite MemFacts.at_put_same by assumption.
    apply Z.mod_small. lia. }
  assert (forall a, a <> addr -> Mem.at_ m2 a = Mem.at_ m1 a) as Hframe2.
  { intros a Ha. apply MemFacts.at_put_other; [lia|assumption]. }
  assert (forall a, Mem.at_ m1 a <> 0 -> Mem.at_ m2 a <> 0) as Hkeep2.
  { intros a Ha. destruct (Z.eq_dec a addr) as [->|Hne]; [congruence|].
    now rewrite Hframe2. }
  assert (free_pages m2 <= free_pages m1) as Hfree2.
  { apply count_free_mono. intros a _. apply Hkeep2. }
  assert (Mem.wf m2) as Hwf2 by now apply MemFacts.wf_put.
  assert (Mem.at_ m2 0 <> 0) as H02.
  { apply Hkeep2. now rewrite Hkeep1. }
  destruct (Z.eq_dec j i) as [->|Hne].
  - destruct (map_data_pages_frame n p T (i + 1) m2 m' Hwf2 HT H02
                ltac:(lia) ltac:(unfold PAGE_COUNT; lia) Hrun)
      as (_ & _ & Hfree' & Hframe' & _).
    pose proof (count_free_bounds (Z.to_nat 64) 0 m') as Hb'.
    fold PTP_OFFSET in Hb'. fold (free_pages m') in Hb'.
    assert (pte m' T i = page) as Hpte.
    { unfold pte. fold addr. rewrite Hframe'; [assumption|left; congruence|].
      intros j' Hj'. unfold addr.
      rewrite !get_address_add by (unfold PAGE_SIZE; lia). lia. }
    rewrite Hpte. split; [lia|].
    exists m, m1. rewrite Z.sub_diag. split; [reflexivity|assumption].
  - destruct (IH (i + 1) m2 Hwf2 HT H02 ltac:(lia) ltac:(lia) Hrun j ltac:(lia))
      as (Hrange & mj & mj' & Hpre & Hallocj).
    split; [assumption|]. exists mj, mj'. split; [|assumption].
    replace (Z.to_nat (j - i)) with (S (Z.to_nat (j - (i + 1)))) by lia.
    now rewrite (map_data_pages_step _ p T i m page).
Qed.

(** The loop of [new_process] when the page table is not page 0: in page 0
    it only marks the pages it hands out, each of which was free, and it
    uses up exactly one free page per turn. *)
Lemma map_data_pages_fresh n p T i m m' :
  Mem.wf m -> 1 <= T < PAGE_COUNT -> Mem.at_ m 0 <> 0 ->
  0 <= i -> i + free_pages m <= PAGE_COUNT ->
  map_data_pages n p T i m = Some (Created, m') ->
  free_pages m' = free_pages m - Z.of_nat n /\
  (forall a, 0 <= a < PAGE_SIZE ->
     Mem.at_ m' a = Mem.at_ m a \/
     (0 <= a < PTP_OFFSET /\ Mem.at_ m a = 0 /\ Mem.at_ m' a = 1 /\
      exists j, i <= j < i + Z.of_nat n /\ pte m' T j = a)) /\
  (forall j, i <= j < i + Z.of_nat n ->
     Mem.at_ m (pte m' T j) = 0 /\ Mem.at_ m' (pte m' T j) = 1).
Proof.
  revert i m. induction n as [|n IH]; intros i m Hwf HT H0 Hi Hfree Hrun.
  - apply ret_inv in Hrun as [_ ->]. split; [lia|]. split; [auto|lia].
  - simpl map_data_pages in Hrun.
    apply bind_inv in Hrun as (page & m1 & Halloc & Hrun).
    apply allocate_next_page_inv in Halloc; [|assumption].
    destruct Halloc as [(-> & -> & Hfull)|(Hpage & Hz & Hlow & ->)].
    { simpl in Hrun. apply ret_inv in Hrun as [? _]. discriminate. }
    destruct (Z.eqb_spec page (-1)) as [E|_]; [lia|].
    apply bind_inv in Hrun as ([] & m2 & Hstore & Hrun).
    apply store_inv in Hstore as [Haddr ->].
    destruct (allocated_facts m page Hwf Hpage Hz)
      as (Hwf1 & H1 & Hframe1 & Hkeep1 & Hfree1).
    set (m1 := Mem.put m page 1) in *.
    set (addr := get_address T i) in *.
    set (m2 := Mem.put m1 addr page) in *.
    pose proof (count_free_bounds (Z.to_nat PTP_OFFSET) 0 m1) as Hb1.
    fold (free_pages m1) in Hb1.
    assert (page <> 0) as Hpnz by congruence.
    unfold PAGE_COUNT, PTP_OFFSET, PAGE_SIZE in *.
    assert (256 <= addr) as Hhigh.
    { unfold addr. rewrite get_address_add by (unfold PAGE_SIZE; lia). lia. }
    assert (Mem.at_ m2 addr = page) as Hentry.
    { unfold m2. rewrite MemFacts.at_put_same by assumption.
      apply Z.mod_small. lia. }
    assert (forall a, a <> addr -> Mem.at_ m2 a = Mem.at_ m1 a) as Hframe2.
    { intros a Ha. apply MemFacts.at_put_other; [lia|assumption]. }
    assert (free_pages m2 = free_pages m1) as Hfree2.
    { apply count_free_ext. intros a Ha. apply Hframe2.
      unfold PTP_OFFSET in Ha. lia. }
    assert (Mem.wf m2) as Hwf2 by now apply MemFacts.wf_put.
    assert (Mem.at_ m2 0 <> 0) as H02.
    { rewrite Hframe2 by lia. now rewrite Hkeep1. }
    assert (0 <= T < 64) as HT' by lia.
    destruct (map_data_pages_frame n p T (i + 1) m2 m' Hwf2 HT' H02
                ltac:(lia) ltac:(unfold PAGE_COUNT; lia) Hrun)
      as (_ & _ & Hfree' & Hframe' & _).
    pose proof (count_free_bounds (Z.to_nat 64) 0 m') as Hb'.
    fold PTP_OFFSET in Hb'. fold (free_pages m') in Hb'.
    assert (forall j, i < j < i + 1 + Z.of_nat n ->
                      256 <= get_address T j /\ addr <> get_address T j) as Hinj.
    { intros j Hj. unfold addr.
      rewrite !get_address_add by (unfold PAGE_SIZE; lia). lia. }
    assert (pte m' T i = page) as Hpte.
    { unfold pte. fold addr. rewrite Hframe'; [assumption|left; congruence|].
      intros j Hj. apply Hinj. lia. }
    assert (Mem.at_ m' page = 1) as Hpage'.
    { rewrite Hframe'; [rewrite Hframe2 by lia; assumption| |].
      - left. rewrite Hframe2 by lia. lia.
      - intros j Hj. destruct (Hinj j ltac:(lia)). lia. }
    destruct (IH (i + 1) m2 Hwf2 HT H02 ltac:(lia) ltac:(lia) Hrun)
      as (Hcount & Hbitmap & Hentries).
    split; [lia|]. split.
    + intros a Ha.
      destruct (Hbitmap a Ha) as [Hsame|(Ha' & Hz2 & H1' & j & Hj & Hj')].
      * rewrite Hframe2 in Hsame by lia.
        destruct (Z.eq_dec a page) as [->|Hne].
        -- right. split; [lia|]. split; [assumption|]. split; [assumption|].
           exists i. split; [lia|assumption].
        -- left. rewrite Hsame. now apply Hframe1.
      * rewrite Hframe2 in Hz2 by lia.
        assert (a <> page) as Hne by congruence.
        rewrite Hframe1 in Hz2 by assumption.
        right. split; [assumption|]. split; [assumption|]. split; [assumption|].
        exists j. split; [lia|assumption].
    + intros j Hj. destruct (Z.eq_dec j i) as [->|Hne].
      * rewrite Hpte. auto.
      * destruct (Hentries j ltac:(lia)) as [Hz2 H1'].
        split; [|assumption].
        destruct (map_data_pages_entries n p T (i + 1) m2 m' Hwf2 HT' H02
                    ltac:(lia) ltac:(unfold PAGE_COUNT; lia) Hrun j ltac:(lia))
          as [Hrange _].
        unfold PTP_OFFSET in Hrange.
        rewrite Hframe2 in Hz2 by lia.
        assert (pte m' T j <> page) as Hne' by congruence.
        now rewrite Hframe1 in Hz2.
Qed.

(** The loop keeps the memory well formed, and page 0 marked once it is. *)
Lemma map_data_pages_keeps n p T i m r m' :
  Mem.wf m -> map_data_pages n p T i m = Some (r, m') ->
  Mem.wf m' /\ (Mem.at_ m 0 <> 0 -> Mem.at_ m' 0 <> 0).
Proof.
  revert i m. induction n as [|n IH]; intros i m Hwf Hrun.
  - apply ret_inv in Hrun as [_ ->]. auto.
  - simpl map_data_pages in Hrun.
    apply bind_inv in Hrun as (page & m1 & Halloc & Hrun).
    apply allocate_next_page_inv in Halloc; [|assumption].
    destruct Halloc as [(-> & -> & Hfull)|(Hpage & Hz & Hlow & ->)].
    { simpl in Hrun. apply ret_inv in Hrun as [_ ->]. auto. }
    destruct (Z.eqb_spec page (-1)) as [E|_]; [lia|].
    apply bind_inv in Hrun as ([] & m2 & Hstore & Hrun).
    apply store_inv in Hstore as [Haddr ->].
    destruct (allocated_facts m page Hwf Hpage Hz) as (Hwf1 & H1 & _ & Hkeep1 & _).
    assert (Mem.wf (Mem.put (Mem.put m page 1) (get_address T i) page)) as Hwf2
      by now apply MemFacts.wf_put.
    destruct (IH _ _ Hwf2 Hrun) as [Hwf' Hkeep']. split; [assumption|].
    intros H0. apply Hkeep'.
    destruct (Z.eq_dec (get_address T i) 0) as [E|Hne].
    + rewrite E. rewrite MemFacts.at_put_same by (assumption || (unfold MEM_SIZE; lia)).
      assert (page <> 0) by congruence.
      unfold PTP_OFFSET in Hpage. rewrite Z.mod_small; lia.
    + rewrite MemFacts.at_put_other by lia. now rewrite Hkeep1.
Qed.

Lemma new_process_keeps p k m r m' :
  Mem.wf m -> new_process p k m = Some (r, m') ->
  Mem.wf m' /\ (Mem.at_ m 0 <> 0 -> Mem.at_ m' 0 <> 0).
Proof.
  intros Hwf H. apply new_process_inv in H; [|assumption].
  destruct H as [(_ & -> & _)|(T & HT & Hz & Hlow & _ & Hp & Hloop)]; [auto|].
  assert (Mem.wf (with_page_table m p T)) as Hwf0
    by (do 2 apply MemFacts.wf_put; assumption).
  destruct (map_data_pages_keeps _ _ _ _ _ _ _ Hwf0 Hloop) as [Hwf' Hkeep].
  split; [assumption|]. intros H0. apply Hkeep.
  assert (T <> 0) as HTnz by congruence.
  assert (Mem.wf (Mem.put m T 1)) as Hwf1 by now apply MemFacts.wf_put.
  unfold with_page_table. unfold PTP_OFFSET in HT.
  destruct (Z.eq_dec (PTP_OFFSET + p) 0) as [E|Hne].
  - rewrite E. rewrite MemFacts.at_put_same by (assumption || (unfold MEM_SIZE; lia)).
    rewrite Z.mod_small; lia.
  - rewrite MemFacts.at_put_other by lia.
    rewrite MemFacts.at_put_other by lia. assumption.
Qed.

(** ** Translation, stores and loads *)

Lemma translate_virtual_address_inv p vaddr m addr m' :
  Mem.wf m -> translate_virtual_address p vaddr m = Some (addr, m') ->
  m' = m /\
  addr = get_address (pte m (directory_entry m p) (pte_index_of vaddr))
                     (offset_of vaddr).
Proof.
  intros Hwf H. unfold translate_virtual_address in H.
  apply bind_inv in H as (T & m0 & Hget & H).
  apply get_page_table_inv in Hget as (-> & -> & _); [|assumption].
  apply bind_inv in H as (page & m1 & Hload & H).
  apply load_inv in Hload as (-> & -> & _); [|assumption].
  apply ret_inv in H as [-> ->]. auto.
Qed.

Lemma store_value_inv p vaddr value m t m' :
  Mem.wf m -> store_value p vaddr value m = Some (t, m') ->
  exists addr,
    translate_virtual_address p vaddr m = Some (addr, m) /\
    0 <= addr < MEM_SIZE /\ m' = Mem.put m addr (value mod 256) /\
    t = Trace p vaddr addr (value mod 256).
Proof.
  intros Hwf H. unfold store_value in H.
  apply bind_inv in H as (addr & m0 & Htr & H).
  pose proof (translate_virtual_address_inv _ _ _ _ _ Hwf Htr) as [-> _].
  apply bind_inv in H as ([] & m1 & Hstore & H).
  apply store_inv in Hstore as [Haddr ->].
  apply ret_inv in H as [-> ->]. eauto.
Qed.

Lemma load_value_inv p vaddr m t m' :
  Mem.wf m -> load_value p vaddr m = Some (t, m') -> m' = m.
Proof.
  intros Hwf H. unfold load_value in H.
  apply bind_inv in H as (addr & m0 & Htr & H).
  apply translate_virtual_address_inv in Htr as [-> _]; [|assumption].
  apply bind_inv in H as (value & m1 & Hload & H).
  apply load_inv in Hload as (-> & _); [|assumption].
  now apply ret_inv in H as [_ ->].
Qed.

(** ** Command streams *)

Lemma exec_inv {A} (c : M A) m m' :
  exec c m = Some m' -> exists x, c m = Some (x, m').
Proof.
  unfold exec. destruct (c m) as [[x m1]|]; [|discriminate].
  intros [= <-]. eauto.
Qed.

Lemma exec_unit_inv (c : M unit) m m' :
  exec c m = Some m' -> c m = Some (tt, m').
Proof. intros H. apply exec_inv in H as [[] H]. exact H. Qed.

Lemma exec_discard_inv {A} (c : M A) m m' :
  exec (c ;;; ret tt) m = Some m' -> exists x, c m = Some (x, m').
Proof.
  intros H. apply exec_inv in H as [[] H].
  apply bind_inv in H as (x & m1 & Hc & H). apply ret_inv in H as [_ ->]. eauto.
Qed.

Lemma wf_initial_mem : Mem.wf initial_mem.
Proof.
  change initial_mem with (Mem.put Mem.zeroed 0 1).
  apply MemFacts.wf_put, MemFacts.wf_zeroed.
Qed.

Lemma run_command_wf c m m' :
  Mem.wf m -> exec (run_command c) m = Some m' -> Mem.wf m'.
Proof.
  intros Hwf H. destruct c as [p k|p|p vaddr value|p vaddr]; simpl in H.
  - apply exec_discard_inv in H as [r H].
    now apply new_process_keeps in H.
  - apply exec_unit_inv in H. now apply kill_process_effect in H.
  - apply exec_discard_inv in H as [t H].
    apply store_value_inv in H as (addr & _ & _ & -> & _); [|assumption].
    now apply MemFacts.wf_put.
  - apply exec_discard_inv in H as [t H].
    apply load_value_inv in H as ->; assumption.
Qed.

Lemma reachable_wf m : reachable m -> Mem.wf m.
Proof.
  induction 1 as [|c m m' _ IH Hstep]; [apply wf_initial_mem|].
  exact (run_command_wf _ _ _ IH Hstep).
Qed.

Lemma run_commands_reachable cs m m' :
  reachable m -> exec (run_commands cs) m = Some m' -> reachable m'.
Proof.
  revert m. induction cs as [|c cs IH]; intros m Hm H.
  - apply exec_unit_inv in H. apply ret_inv in H as [_ ->]. assumption.
  - apply exec_unit_inv in H. simpl run_commands in H.
    apply bind_inv in H as ([] & m1 & Hc & H).
    apply (IH m1).
    + apply (reachable_step c m); [assumption|]. unfold exec. now rewrite Hc.
    + unfold exec. now rewrite H.
Qed.

Lemma run_main_reachable cs m : run_main cs = Some m -> reachable m.
Proof.
  unfold run_main. intros H. apply exec_unit_inv in H.
  apply bind_inv in H as ([] & m0 & Hinit & H).
  assert (m0 = initial_mem) as ->.
  { unfold initialize_mem in Hinit. apply store_inv in Hinit as [_ ->]. reflexivity. }
  apply (run_commands_reachable cs initial_mem); [constructor|].
  unfold exec. now rewrite H.
Qed.

Lemma after_reachable cs : run_main cs <> None -> reachable (after cs).
Proof.
  intros H. unfold after. destruct (run_main cs) as [m|] eqn:E; [|contradiction].
  now apply (run_main_reachable cs).
Qed.

Lemma after_wf cs : Mem.wf (after cs).
Proof.
  unfold after. destruct (run_main cs) as [m|] eqn:E.
  - apply reachable_wf. now apply (run_main_reachable cs).
  - apply MemFacts.wf_zeroed.
Qed.

(** Two pairs of memories whose free cells differ on the same cells have
    the same difference of free-page counts. *)
Lemma count_free_diff n i A B A' B' :
  (forall a, i <= a < i + Z.of_nat n ->
     (Mem.at_ A a = 0 /\ Mem.at_ B a <> 0 /\ Mem.at_ A' a = 0 /\ Mem.at_ B' a <> 0)
     \/ ((Mem.at_ A a = 0 <-> Mem.at_ B a = 0) /\
         (Mem.at_ A' a = 0 <-> Mem.at_ B' a = 0))) ->
  count_free n i A - count_free n i B = count_free n i A' - count_free n i B'.
Proof.
  revert i. induction n as [|n IH]; intros i H; simpl count_free; [reflexivity|].
  assert (count_free n (i + 1) A - count_free n (i + 1) B =
          count_free n (i + 1) A' - count_free n (i + 1) B') as Hrest.
  { apply IH. intros a Ha. apply H. lia. }
  specialize (H i ltac:(lia)).
  destruct (Z.eqb_spec (Mem.at_ A i) 0), (Z.eqb_spec (Mem.at_ B i) 0),
           (Z.eqb_spec (Mem.at_ A' i) 0), (Z.eqb_spec (Mem.at_ B' i) 0);
    try lia; exfalso; tauto.
Qed.

(** Cells known to be free are counted. *)
Lemma count_free_suffix n i m k :
  i <= k ->
  (forall a, k <= a < i + Z.of_nat n -> Mem.at_ m a = 0) ->
  i + Z.of_nat n - k <= count_free n i m.
Proof.
  revert i k. induction n as [|n IH]; intros i k Hik Hz; simpl count_free; [lia|].
  destruct (Z.eq_dec i k) as [->|Hne].
  - rewrite Hz by lia. simpl.
    specialize (IH (k + 1) (k + 1) (Z.le_refl _)).
    assert (k + 1 + Z.of_nat n - (k + 1) <= count_free n (k + 1) m) as Hle.
    { apply IH. intros a Ha. apply Hz. lia. }
    lia.
  - assert (i + 1 + Z.of_nat n - k <= count_free n (i + 1) m) as Hle.
    { apply IH; [lia|]. intros a Ha. apply Hz. lia. }
    destruct (Mem.at_ m i =? 0); lia.
Qed.

Lemma all_below_spec n i P :
  all_below n i P = true ->
  forall j, i <= j < i + Z.of_nat n -> P j = true.
Proof.
  revert i. induction n as [|n IH]; intros i H j Hj; [lia|].
  simpl in H. apply andb_true_iff in H as [Hi Hrest].
  destruct (Z.eq_dec j i) as [->|Hne]; [assumption|].
  apply (IH (i + 1)); [assumption|lia].
Qed.

(** * The claims *)

(** ** C1: page 0 and the bitmap *)

Lemma allocate_next_page_page_zero m page m' :
  Mem.wf m -> Mem.at_ m 0 <> 0 ->
  allocate_next_page m = Some (page, m') ->
  page <> 0 /\ Mem.wf m' /\ Mem.at_ m' 0 <> 0.
Proof.
  intros Hwf H0 H. apply allocate_next_page_inv in H; [|assumption].
  destruct H as [(-> & -> & _)|(Hpage & Hz & _ & ->)].
  - split; [lia|auto].
  - destruct (allocated_facts m page Hwf Hpage Hz) as (Hwf1 & _ & _ & Hkeep & _).
    split; [congruence|]. split; [assumption|]. now rewrite Hkeep.
Qed.

Lemma run_command_spares c m m' :
  Mem.wf m -> Mem.at_ m 0 <> 0 -> spares_page_zero c m = true ->
  exec (run_command c) m = Some m' -> Mem.at_ m' 0 <> 0.
Proof.
  intros Hwf H0 Hsp H. destruct c as [p k|p|p vaddr value|p vaddr]; simpl in H, Hsp.
  - apply exec_discard_inv in H as [r H].
    apply new_process_keeps in H as [_ Hkeep]; auto.
  - apply exec_unit_inv in H.
    apply kill_process_effect in H as (_ & _ & Heff); [|assumption].
    apply negb_true_iff, Z.eqb_neq in Hsp.
    destruct (Heff 0) as [Hsame|(_ & [E|[Hne _]])]; congruence.
  - apply exec_discard_inv in H as [t H].
    apply store_value_inv in H as (addr & Htr & Haddr & -> & _); [|assumption].
    destruct (Z.eq_dec addr 0) as [->|Hne].
    + rewrite MemFacts.at_put_same by assumption.
      rewrite Z.mod_mod by lia.
      rewrite Htr in Hsp. simpl in Hsp. now apply negb_true_iff, Z.eqb_neq in Hsp.
    + rewrite MemFacts.at_put_other by lia. assumption.
  - apply exec_discard_inv in H as [t H].
    apply load_value_inv in H as ->; assumption.
Qed.

Lemma run_sparing_reachable cs m m' :
  reachable_sparing m -> run_sparing cs m = Some m' -> reachable_sparing m'.
Proof.
  revert m. induction cs as [|c cs IH]; intros m Hm H; simpl in H.
  - now injection H as <-.
  - destruct (spares_page_zero c m) eqn:Hsp; [|discriminate].
    destruct (exec (run_command c) m) as [m1|] eqn:Hstep; [|discriminate].
    apply (IH m1); [|assumption]. exact (sparing_step c m m1 Hm Hsp Hstep).
Qed.

(** C1, as stated, fails: from the initial memory, [kp 0] on the process
    that was never created frees page 0, and the next allocation returns
    page 0. *)
Lemma page_zero_freed_by_kill :
  reachable (after [Kp 0]) /\
  Mem.at_ (after [Kp 0]) 0 = 0 /\
  result allocate_next_page (after [Kp 0]) = Some 0.
Proof.
  split; [apply after_reachable; vm_compute; discriminate|].
  split; vm_compute; reflexivity.
Qed.

(** C1, amended: page 0 is marked allocated at initialization; in every
    state reached from the initial one by lifecycle operations of which
    each [kill_process] names a process whose directory entry is nonzero
    and no [store_value] writes 0 at physical address 0, the bitmap byte of
    page 0 is nonzero and [allocate_next_page] does not return page 0. *)
Theorem page_zero_stays_allocated :
  Mem.at_ initial_mem 0 = 1 /\
  forall m, reachable_sparing m ->
    Mem.wf m /\ Mem.at_ m 0 <> 0 /\
    forall page m', allocate_next_page m = Some (page, m') -> page <> 0.
Proof.
  split; [reflexivity|].
  assert (forall m, reachable_sparing m -> Mem.wf m /\ Mem.at_ m 0 <> 0) as Hinv.
  { induction 1 as [|c m m' _ [Hwf H0] Hsp Hstep].
    - split; [apply wf_initial_mem|]. change (Mem.at_ initial_mem 0) with 1. lia.
    - split; [exact (run_command_wf _ _ _ Hwf Hstep)|].
      exact (run_command_spares _ _ _ Hwf H0 Hsp Hstep). }
  intros m Hm. destruct (Hinv m Hm) as [Hwf H0].
  split; [assumption|]. split; [assumption|].
  intros page m' Halloc.
  now apply (allocate_next_page_page_zero m page m' Hwf H0).
Qed.

Lemma page_zero_stays_allocated_witness :
  exists m,
    run_sparing [Np 0 1; Np 1 0; Sb 0 0 42; Kp 1] initial_mem = Some m /\
    Mem.at_ m 0 <> 0.
Proof.
  eexists. split; [vm_compute; reflexivity|].
  refine (proj1 (proj2 (proj2 page_zero_stays_allocated _
            (run_sparing_reachable [Np 0 1; Np 1 0; Sb 0 0 42; Kp 1]
               initial_mem _ sparing_init _)))).
  vm_compute. reflexivity.
Defined.

(** ** C2: [kill_process] on a process without a page table *)

(** C2: when the directory entry of [p] is 0, [kill_process p] scans page 0
    as the page table: at each offset of page 0 whose byte is nonzero when
    the scan reaches it, the cell indexed by that byte is cleared, and at
    the end cell 0 is cleared, which leaves page 0 marked free. *)
Theorem kill_process_without_page_table p m :
  Mem.wf m -> get_page_table p m = Some (0, m) ->
  kill_process p m = Some (tt, kill_page_zero m) /\
  Mem.at_ (kill_page_zero m) 0 = 0.
Proof.
  intros Hwf Hget. split.
  - unfold kill_process. rewrite (bind_eq _ _ _ _ _ Hget).
    rewrite (bind_eq _ _ _ _ _
               (free_mapped_pages_page_zero (Z.to_nat PAGE_SIZE) 0 m Hwf
                  (Z.le_refl 0) ltac:(unfold PAGE_SIZE, MEM_SIZE; lia))).
    unfold kill_page_zero. rewrite store_ok by (unfold MEM_SIZE; lia).
    reflexivity.
  - unfold kill_page_zero. rewrite MemFacts.at_put_same; [reflexivity| |].
    + destruct (free_mapped_pages_effect _ _ _ _ _ Hwf
                  (free_mapped_pages_page_zero (Z.to_nat PAGE_SIZE) 0 m Hwf
                     (Z.le_refl 0) ltac:(unfold PAGE_SIZE, MEM_SIZE; lia)))
        as [Hwf' _].
      exact Hwf'.
    + unfold MEM_SIZE. lia.
Qed.

Lemma kill_process_without_page_table_witness :
  Mem.wf initial_mem /\ get_page_table 7 initial_mem = Some (0, initial_mem) /\
  kill_process 7 initial_mem = Some (tt, kill_page_zero initial_mem) /\
  Mem.at_ (kill_page_zero initial_mem) 0 = 0.
Proof.
  split; [apply wf_initial_mem|]. split; [reflexivity|].
  apply (kill_process_without_page_table 7 initial_mem);
    [apply wf_initial_mem|reflexivity].
Defined.

(** ** C3: the allocator *)

(** C3: [allocate_next_page] returns the lowest index below [PTP_OFFSET]
    whose bitmap byte is 0 and sets that byte (and nothing else) nonzero;
    when no byte below [PTP_OFFSET] is 0 it returns -1 and leaves the
    memory as it is. *)
Theorem allocate_next_page_lowest_free m :
  Mem.wf m ->
  (exists page m',
      allocate_next_page m = Some (page, m') /\
      0 <= page < PTP_OFFSET /\ Mem.at_ m page = 0 /\
      (forall j, 0 <= j < page -> Mem.at_ m j <> 0) /\
      Mem.at_ m' page <> 0 /\
      (forall a, a <> page -> Mem.at_ m' a = Mem.at_ m a))
  \/ (allocate_next_page m = Some (-1, m) /\
      forall j, 0 <= j < PTP_OFFSET -> Mem.at_ m j <> 0).
Proof.
  intros Hwf.
  destruct (allocate_next_page_cases m Hwf) as [(page & Hp & Hz & Hlow & E)|[Hall E]].
  - left. exists page, (Mem.put m page 1).
    destruct (allocated_facts m page Hwf Hp Hz) as (_ & H1 & Hframe & _).
    repeat split; try assumption; try lia.
  - right. auto.
Qed.

Lemma allocate_next_page_lowest_free_witness :
  Mem.wf initial_mem /\
  exists m', allocate_next_page initial_mem = Some (1, m').
Proof.
  split; [apply wf_initial_mem|].
  destruct (allocate_next_page_lowest_free initial_mem wf_initial_mem)
    as [(page & m' & E & _)|[E _]].
  - eexists. vm_compute. reflexivity.
  - eexists. vm_compute. reflexivity.
Defined.

(** ** C6: composing and splitting addresses *)

(** C6: for a page below [PAGE_COUNT] and an offset below [PAGE_SIZE],
    splitting the composed address gives the pair back, both with the
    shift and mask written with [PAGE_SHIFT] and [PAGE_SIZE - 1] and with
    the literals 8 and 255 of [translate_virtual_address]. *)
Theorem split_get_address page offset :
  0 <= page < PAGE_COUNT -> 0 <= offset < PAGE_SIZE ->
  (Z.shiftr (get_address page offset) PAGE_SHIFT,
   Z.land (get_address page offset) (PAGE_SIZE - 1)) = (page, offset) /\
  (pte_index_of (get_address page offset),
   offset_of (get_address page offset)) = (page, offset).
Proof.
  intros _ Ho.
  pose proof (pte_index_of_get_address page offset Ho) as H1.
  pose proof (offset_of_get_address page offset Ho) as H2.
  split; [|now rewrite H1, H2].
  unfold pte_index_of, offset_of in *. unfold PAGE_SHIFT, PAGE_SIZE.
  change (256 - 1) with 255. now rewrite H1, H2.
Qed.

Lemma split_get_address_witness :
  (0 <= 5 < PAGE_COUNT /\ 0 <= 17 < PAGE_SIZE) /\
  (pte_index_of (get_address 5 17), offset_of (get_address 5 17)) = (5, 17).
Proof.
  split; [unfold PAGE_COUNT, PAGE_SIZE; lia|].
  apply (split_get_address 5 17); unfold PAGE_COUNT, PAGE_SIZE; lia.
Defined.

(** ** C7: translating through an unmapped entry *)

(** C7: when the page-table entry at index [vaddr >> 8] of process [p]
    reads 0, [translate_virtual_address p vaddr] returns, without error
    and without touching memory, an address inside page 0: the offset part
    of [vaddr]. *)
Theorem translate_unmapped p vaddr m T :
  get_page_table p m = Some (T, m) ->
  load (get_address T (pte_index_of vaddr)) m = Some (0, m) ->
  exists addr,
    translate_virtual_address p vaddr m = Some (addr, m) /\
    addr = offset_of vaddr /\ 0 <= addr < PAGE_SIZE.
Proof.
  intros Hget Hload. exists (offset_of vaddr). split.
  - unfold translate_virtual_address.
    rewrite (bind_eq _ _ _ _ _ Hget), (bind_eq _ _ _ _ _ Hload).
    now rewrite get_address_zero_page.
  - split; [reflexivity|apply offset_of_range].
Qed.

Lemma translate_unmapped_witness :
  get_page_table 3 initial_mem = Some (0, initial_mem) /\
  load (get_address 0 (pte_index_of 300)) initial_mem = Some (0, initial_mem) /\
  translate_virtual_address 3 300 initial_mem = Some (44, initial_mem).
Proof.
  split; [reflexivity|]. split; [reflexivity|].
  destruct (translate_unmapped 3 300 initial_mem 0 eq_refl eq_refl)
    as (addr & E & -> & _).
  exact E.
Defined.

(** ** C9: a store followed by a load *)

(** C9: from the initial memory, after [new_process 0 1] succeeds,
    [store_value 0 0 42] and then [load_value 0 0] both resolve virtual
    address 0 to the same physical address (512) and the load reads 42. *)
Theorem store_then_load :
  result (r <- new_process 0 1 ;;
          s <- store_value 0 0 42 ;;
          l <- load_value 0 0 ;;
          ret (r, s, l)) initial_mem
  = Some (Created, Trace 0 0 512 42, Trace 0 0 512 42).
Proof. vm_compute. reflexivity. Qed.

(** ** C10: what [kill_process] writes *)

(** C10: when the directory entry [T] of process [p] is nonzero,
    [kill_process p] changes only cells of page 0, so the page-table page
    [T] keeps its contents; it runs to completion when [T] is a page
    number. *)
Theorem kill_process_writes_page_zero_only p m T :
  Mem.wf m -> get_page_table p m = Some (T, m) -> T <> 0 ->
  (T < PAGE_COUNT -> exists m', kill_process p m = Some (tt, m')) /\
  forall m', kill_process p m = Some (tt, m') ->
    (forall a, Mem.at_ m' a <> Mem.at_ m a -> 0 <= a < PAGE_SIZE) /\
    (forall i, 0 <= i < PAGE_SIZE -> pte m' T i = pte m T i).
Proof.
  intros Hwf Hget HT.
  apply get_page_table_inv in Hget as (_ & -> & Hp); [|assumption].
  pose proof (MemFacts.at_byte m (PTP_OFFSET + p) Hwf) as HTb.
  fold (directory_entry m p) in HTb.
  split.
  - intros Hlt. apply kill_process_ok; [assumption|assumption|lia].
  - intros m' Hkill.
    apply kill_process_effect in Hkill as (_ & _ & Heff); [|assumption].
    assert (forall a, Mem.at_ m' a <> Mem.at_ m a -> 0 <= a < PAGE_SIZE) as Hpage0.
    { intros a Ha. unfold PAGE_SIZE.
      destruct (Heff a) as [Hsame|(_ & [->|(_ & j & _ & <-)])];
        [contradiction|assumption|apply MemFacts.at_byte; assumption]. }
    split; [assumption|].
    intros i Hi. unfold pte.
    destruct (Z.eq_dec (Mem.at_ m' (get_address (directory_entry m p) i))
                       (Mem.at_ m (get_address (directory_entry m p) i)))
      as [E|Hne]; [assumption|].
    apply Hpage0 in Hne. rewrite get_address_add in Hne by assumption.
    unfold PAGE_SIZE in *. lia.
Qed.

Lemma kill_process_writes_page_zero_only_witness :
  Mem.wf (after [Np 0 2]) /\
  get_page_table 0 (after [Np 0 2]) = Some (1, after [Np 0 2]) /\
  kill_process 0 (after [Np 0 2]) = Some (tt, after [Np 0 2; Kp 0]) /\
  pte (after [Np 0 2; Kp 0]) 1 0 = pte (after [Np 0 2]) 1 0.
Proof.
  assert (get_page_table 0 (after [Np 0 2]) = Some (1, after [Np 0 2])) as Hget
    by (vm_compute; reflexivity).
  assert (kill_process 0 (after [Np 0 2]) = Some (tt, after [Np 0 2; Kp 0])) as Hkill
    by (vm_compute; reflexivity).
  split; [apply after_wf|]. split; [exact Hget|]. split; [exact Hkill|].
  destruct (kill_process_writes_page_zero_only 0 (after [Np 0 2]) 1
              (after_wf _) Hget ltac:(lia)) as [_ H].
  destruct (H _ Hkill) as [_ Hpte]. apply Hpte. unfold PAGE_SIZE. lia.
Defined.

(** ** C8: the directory entry after [kill_process] *)

(** C8, as stated, fails: after [np 0 1], [sb 0 325 2] (which lands in
    page 0 and makes page 2 the page table of process 5) and [sb 0 0 69]
    (which stores 69 in entry 0 of that page), [kp 5] clears cell 69, the
    directory entry of process 5. *)
Lemma kill_process_clears_directory :
  reachable (after [Np 0 1; Sb 0 325 2; Sb 0 0 69]) /\
  directory_entry (after [Np 0 1; Sb 0 325 2; Sb 0 0 69]) 5 = 2 /\
  kill_process 5 (after [Np 0 1; Sb 0 325 2; Sb 0 0 69])
  = Some (tt, after [Np 0 1; Sb 0 325 2; Sb 0 0 69; Kp 5]) /\
  directory_entry (after [Np 0 1; Sb 0 325 2; Sb 0 0 69; Kp 5]) 5 = 0.
Proof.
  split; [apply after_reachable; vm_compute; discriminate|].
  repeat split; vm_compute; reflexivity.
Qed.

(** C8, amended: [kill_process p] leaves the directory byte of [p] as it
    is, still naming the freed page-table page, provided neither that page
    number nor any entry of that page is the index [PTP_OFFSET + p] of the
    directory byte itself. *)
Theorem kill_process_keeps_directory p m m' T :
  Mem.wf m -> kill_process p m = Some (tt, m') ->
  T = directory_entry m p ->
  T <> PTP_OFFSET + p ->
  (forall i, 0 <= i < PAGE_SIZE -> pte m T i <> PTP_OFFSET + p) ->
  directory_entry m' p = T /\ Mem.at_ m' T = 0.
Proof.
  intros Hwf Hkill -> HT Hentries.
  apply kill_process_effect in Hkill as (_ & Hfreed & Heff); [|assumption].
  split; [|assumption]. unfold directory_entry at 1.
  destruct (Heff (PTP_OFFSET + p)) as [Hsame|(_ & [E|(_ & j & Hj & E)])].
  - exact Hsame.
  - symmetry in E. contradiction.
  - exfalso. exact (Hentries j Hj E).
Qed.

Lemma kill_process_keeps_directory_witness :
  Mem.wf (after [Np 0 2]) /\
  kill_process 0 (after [Np 0 2]) = Some (tt, after [Np 0 2; Kp 0]) /\
  directory_entry (after [Np 0 2; Kp 0]) 0 = 1.
Proof.
  assert (kill_process 0 (after [Np 0 2]) = Some (tt, after [Np 0 2; Kp 0])) as Hkill
    by (vm_compute; reflexivity).
  split; [apply after_wf|]. split; [exact Hkill|].
  refine (proj1 (kill_process_keeps_directory 0 (after [Np 0 2]) _ 1
                   (after_wf _) Hkill _ _ _)).
  - vm_compute. reflexivity.
  - unfold PTP_OFFSET. lia.
  - intros i Hi.
    apply Z.eqb_neq, negb_true_iff.
    apply (all_below_spec (Z.to_nat PAGE_SIZE) 0
             (fun i => negb (pte (after [Np 0 2]) 1 i =? PTP_OFFSET + 0)));
      [vm_compute; reflexivity|unfold PAGE_SIZE in *; lia].
Defined.

(** ** C5: running out of memory in [new_process] *)

(** The memory at the entry of the loop satisfies what the loop lemmas
    ask for. *)
Lemma loop_entry_facts m p T :
  Mem.wf m -> 0 <= p < PAGE_COUNT ->
  0 <= T < PTP_OFFSET -> Mem.at_ m T = 0 ->
  (forall j, 0 <= j < T -> Mem.at_ m j <> 0) ->
  Mem.wf (with_page_table m p T) /\
  Mem.at_ (with_page_table m p T) 0 <> 0 /\
  0 + free_pages (with_page_table m p T) <= PAGE_COUNT /\
  free_pages (with_page_table m p T) = free_pages m - 1 /\
  directory_entry (with_page_table m p T) p = T.
Proof.
  intros Hwf Hp HT Hz Hlow.
  destruct (with_page_table_facts m p T Hwf Hp HT Hz Hlow)
    as (Hwf0 & H00 & _ & Hdir & _ & Hfree0).
  pose proof (count_free_bounds (Z.to_nat PTP_OFFSET) 0 m) as Hb.
  fold (free_pages m) in Hb. unfold PTP_OFFSET in Hb.
  repeat split; try assumption; try apply Hwf0. unfold PAGE_COUNT. lia.
Qed.

(** The directory entry written by [new_process] survives its loop. *)
Lemma map_data_pages_directory n p T m m' :
  Mem.wf m -> 0 <= p < PAGE_COUNT -> 0 <= T < PAGE_COUNT ->
  Mem.at_ m 0 <> 0 -> 0 + free_pages m <= PAGE_COUNT ->
  map_data_pages n p T 0 m = Some (Created, m') ->
  directory_entry m' p = directory_entry m p.
Proof.
  intros Hwf Hp HT H0 Hfree Hrun.
  destruct (map_data_pages_frame n p T 0 m m' Hwf HT H0 (Z.le_refl 0) Hfree Hrun)
    as (_ & _ & Hfree' & Hframe & _).
  pose proof (count_free_bounds (Z.to_nat PTP_OFFSET) 0 m') as Hb.
  fold (free_pages m') in Hb.
  unfold directory_entry. apply Hframe; [right; unfold PAGE_COUNT in *; lia|].
  intros j Hj. unfold PAGE_COUNT, PTP_OFFSET in *.
  rewrite get_address_add by (unfold PAGE_SIZE; lia). lia.
Qed.

(** C5: when [new_process p k] fails on the page-table allocation, the
    memory is unchanged.  When it fails on the allocation of data page
    [i], it stops without rollback: the memory is the one that the complete
    creation of [p] with [i] data pages leaves, the failed allocation
    changes nothing, the page-table page [T] is allocated and recorded in
    the directory, and each entry [j < i] of [T] holds the page that the
    allocation of turn [j] returned, which is still allocated. *)
Theorem new_process_out_of_memory p k m r m' :
  Mem.wf m -> 0 <= p < PAGE_COUNT ->
  new_process p k m = Some (r, m') ->
  (r = Created \/ r = OOM_page_table p \/ r = OOM_data_page p) /\
  (r = OOM_page_table p ->
     m' = m /\ allocate_next_page m = Some (-1, m)) /\
  (r = OOM_data_page p ->
     exists T i,
       (exists m0, allocate_next_page m = Some (T, m0)) /\
       0 <= T < PTP_OFFSET /\ 0 <= i < k /\
       new_process p i m = Some (Created, m') /\
       allocate_next_page m' = Some (-1, m') /\
       Mem.at_ m' T <> 0 /\ directory_entry m' p = T /\
       forall j, 0 <= j < i ->
         1 <= pte m' T j < PTP_OFFSET /\ Mem.at_ m' (pte m' T j) <> 0 /\
         exists mj mj',
           new_process p j m = Some (Created, mj) /\
           allocate_next_page mj = Some (pte m' T j, mj')).
Proof.
  intros Hwf Hp Hrun.
  apply new_process_inv in Hrun; [|assumption].
  destruct Hrun as [(-> & -> & Hfull)|(T & HT & Hz & Hlow & Halloc & Hdir & Hloop)].
  { split; [auto|]. split; [auto|discriminate]. }
  destruct (loop_entry_facts m p T Hwf Hp HT Hz Hlow)
    as (Hwf0 & H00 & Hfree0 & _ & Hdir0).
  assert (0 <= T < PAGE_COUNT) as HT' by exact HT.
  destruct r as [|q|q].
  - split; [auto|]. split; discriminate.
  - exfalso. exact (map_data_pages_report _ _ _ _ _ _ _ Hloop).
  - apply map_data_pages_oom in Hloop as (n' & Hlt & -> & Hpre & Hfull);
      [|assumption].
    split; [auto|]. split; [discriminate|]. intros _.
    exists T, (Z.of_nat n').
    assert (forall j, 0 <= j < PTP_OFFSET -> Mem.at_ m' j <> 0) as Hall.
    { destruct (map_data_pages_frame _ _ _ _ _ _ Hwf0 HT' H00 (Z.le_refl 0)
                  Hfree0 Hpre) as (Hwf' & _).
      apply allocate_next_page_inv in Hfull; [|assumption].
      destruct Hfull as [(_ & _ & Hall)|(Hneg & _)]; [assumption|lia]. }
    split; [eauto|]. split; [assumption|]. split; [lia|].
    split.
    { rewrite (new_process_created p _ m T Hwf Hdir HT Halloc).
      now rewrite Nat2Z.id. }
    split; [assumption|]. split; [now apply Hall|].
    split.
    { rewrite <- Hdir0.
      now apply (map_data_pages_directory n' p T _ m' Hwf0 Hp HT' H00 Hfree0). }
    intros j Hj.
    destruct (map_data_pages_entries _ _ _ _ _ _ Hwf0 HT' H00 (Z.le_refl 0)
                Hfree0 Hpre j Hj) as (Hrange & mj & mj' & Hprej & Hallocj).
    split; [assumption|]. split; [apply Hall; lia|].
    exists mj, mj'. split; [|assumption].
    rewrite (new_process_created p _ m T Hwf Hdir HT Halloc).
    now rewrite Z.sub_0_r in Hprej.
Qed.

Lemma new_process_out_of_memory_witness :
  Mem.wf initial_mem /\ 0 <= 0 < PAGE_COUNT /\
  new_process 0 100 initial_mem = Some (OOM_data_page 0, after [Np 0 100]) /\
  exists i, 0 <= i < 100 /\
            new_process 0 i initial_mem = Some (Created, after [Np 0 100]).
Proof.
  assert (new_process 0 100 initial_mem
          = Some (OOM_data_page 0, after [Np 0 100])) as E
    by (vm_compute; reflexivity).
  assert (0 <= 0 < PAGE_COUNT) as Hp by (unfold PAGE_COUNT; lia).
  split; [apply wf_initial_mem|]. split; [exact Hp|]. split; [exact E|].
  destruct (new_process_out_of_memory 0 100 initial_mem _ _ wf_initial_mem Hp E)
    as (_ & _ & H).
  destruct (H eq_refl) as (T & i & _ & _ & Hi & Hpre & _).
  exists i. split; [exact Hi|exact Hpre].
Defined.

(** ** C4: killing a process that was just created *)

(** C4, evaluated on the command line
    [np 1 0 np 2 1 kp 2 kp 1 np 4 1 np 5 0 kp 4 np 7 0 np 8 0 kp 8]:
    [kill_process] frees a page of another, live process.  The first eight
    commands leave pages 0, 1 and 3 allocated, page 3 being the page table
    of process 5, and page 2 free with its entry 0 still naming page 3
    (left there by process 2; pages are not cleared when they are freed or
    handed out again).  [new_process 8 0] succeeds and takes page 2 as page
    table; [kill_process 8], run at once, clears the bitmap cells of page 2
    and of page 3.  Process 5 keeps page 3 as its page table, now marked
    free, and two free entries are regained where C4 says [0 + 1]. *)
Theorem kill_process_frees_stale_entry :
  let cs := [Np 1 0; Np 2 1; Kp 2; Kp 1; Np 4 1; Np 5 0; Kp 4; Np 7 0] in
  let m := after cs in
  let m1 := after (cs ++ [Np 8 0]) in
  let m2 := after (cs ++ [Np 8 0; Kp 8]) in
  reachable m /\
  new_process 8 0 m = Some (Created, m1) /\
  kill_process 8 m1 = Some (tt, m2) /\
  directory_entry m1 8 = 2 /\ pte m 2 0 = 3 /\ pte m1 2 0 = 3 /\
  directory_entry m1 5 = 3 /\ Mem.at_ m1 3 = 1 /\
  Mem.at_ m2 2 = 0 /\
  directory_entry m2 5 = 3 /\ Mem.at_ m2 3 = 0 /\
  free_pages m = 61 /\ free_pages m1 = 60 /\ free_pages m2 = 62 /\
  free_pages m2 <> free_pages m1 + (0 + 1).
Proof.
  split; [apply after_reachable; vm_compute; discriminate|].
  repeat split; vm_compute; (reflexivity || discriminate).
Qed.

(** * Further properties *)

(** ** The allocator and the free-page count *)

Lemma get_outside m a : ~ 0 <= a < MEM_SIZE -> Mem.get m a = None.
Proof.
  intros Ha. unfold Mem.get. destruct (Mem.in_range a) eqn:E; [|reflexivity].
  apply MemFacts.in_range_spec in E. contradiction.
Qed.

Lemma count_free_zero_iff n i m :
  count_free n i m = 0 <->
  forall a, i <= a < i + Z.of_nat n -> Mem.at_ m a <> 0.
Proof.
  revert i. induction n as [|n IH]; intros i; simpl count_free.
  - split; [lia|reflexivity].
  - pose proof (count_free_bounds n (i + 1) m) as Hb.
    specialize (IH (i + 1)). split.
    + intros H a Ha. destruct (Z.eqb_spec (Mem.at_ m i) 0) as [Hz|Hnz]; [lia|].
      destruct (Z.eq_dec a i) as [->|Hne]; [assumption|].
      apply IH; lia.
    + intros H. destruct (Z.eqb_spec (Mem.at_ m i) 0) as [Hz|Hnz].
      * exfalso. apply (H i); [lia|assumption].
      * assert (count_free n (i + 1) m = 0) as ->; [|reflexivity].
        apply IH. intros a Ha. apply H. lia.
Qed.

Lemma free_pages_zero_iff m :
  free_pages m = 0 <-> forall a, 0 <= a < PTP_OFFSET -> Mem.at_ m a <> 0.
Proof.
  unfold free_pages. rewrite count_free_zero_iff.
  unfold PTP_OFFSET. split; intros H a Ha; apply H; lia.
Qed.

(** X1: [allocate_next_page] fails exactly when the free-page count is 0,
    and then leaves the memory alone; when it succeeds the count drops by
    exactly one. *)
Theorem allocate_next_page_free_pages m page m' :
  Mem.wf m -> allocate_next_page m = Some (page, m') ->
  (page = -1 <-> free_pages m = 0) /\
  (page = -1 -> m' = m) /\
  (page <> -1 -> 0 <= page < PTP_OFFSET /\ free_pages m' = free_pages m - 1).
Proof.
  intros Hwf H. apply allocate_next_page_inv in H; [|assumption].
  destruct H as [(-> & -> & Hfull)|(Hpage & Hz & _ & ->)].
  - split; [|split; [reflexivity|contradiction]].
    split; [intros _; now apply free_pages_zero_iff|reflexivity].
  - destruct (allocated_facts m page Hwf Hpage Hz) as (_ & _ & _ & _ & Hfree).
    split; [|split; [lia|auto]].
    split; [lia|]. intros H0. exfalso.
    apply (proj1 (free_pages_zero_iff m) H0 page Hpage Hz).
Qed.

Lemma allocate_next_page_free_pages_witness :
  Mem.wf initial_mem /\
  allocate_next_page initial_mem = Some (1, Mem.put initial_mem 1 1) /\
  free_pages (Mem.put initial_mem 1 1) = free_pages initial_mem - 1.
Proof.
  assert (allocate_next_page initial_mem = Some (1, Mem.put initial_mem 1 1)) as E
    by (vm_compute; reflexivity).
  split; [apply wf_initial_mem|]. split; [exact E|].
  destruct (allocate_next_page_free_pages initial_mem 1 _ wf_initial_mem E)
    as (_ & _ & H).
  destruct (H ltac:(lia)) as [_ Hfree]. exact Hfree.
Defined.

(** X2: two allocations in a row never hand out the same page: the second
    returns a higher page, and once an allocation fails the next fails
    too. *)
Theorem allocate_next_page_twice m page1 m1 page2 m2 :
  Mem.wf m ->
  allocate_next_page m = Some (page1, m1) ->
  allocate_next_page m1 = Some (page2, m2) ->
  (page1 = -1 -> page2 = -1) /\
  (page1 <> -1 -> page2 <> -1 -> page1 < page2).
Proof.
  intros Hwf H1 H2. apply allocate_next_page_inv in H1; [|assumption].
  destruct H1 as [(-> & -> & Hfull)|(Hpage & Hz & Hlow & ->)].
  - split; [|contradiction]. intros _.
    apply allocate_next_page_inv in H2; [|assumption].
    destruct H2 as [(-> & _)|(Hp2 & Hz2 & _)]; [reflexivity|].
    exfalso. exact (Hfull page2 Hp2 Hz2).
  - split; [lia|]. intros _ Hne.
    destruct (allocated_facts m page1 Hwf Hpage Hz) as (Hwf1 & H1 & _ & Hkeep & _).
    apply allocate_next_page_inv in H2; [|assumption].
    destruct H2 as [(-> & _)|(Hp2 & Hz2 & _)]; [contradiction|].
    destruct (Z.lt_ge_cases page1 page2) as [Hlt|Hge]; [assumption|exfalso].
    destruct (Z.eq_dec page2 page1) as [->|Hne']; [lia|].
    assert (Mem.at_ m page2 <> 0) as Hnz by (apply Hlow; lia).
    rewrite Hkeep in Hz2 by assumption. contradiction.
Qed.

Lemma allocate_next_page_twice_witness :
  Mem.wf initial_mem /\
  exists m1 m2,
    allocate_next_page initial_mem = Some (1, m1) /\
    allocate_next_page m1 = Some (2, m2) /\ 1 < 2.
Proof.
  split; [apply wf_initial_mem|].
  exists (Mem.put initial_mem 1 1), (Mem.put (Mem.put initial_mem 1 1) 2 1).
  assert (allocate_next_page initial_mem = Some (1, Mem.put initial_mem 1 1)) as E1
    by (vm_compute; reflexivity).
  assert (allocate_next_page (Mem.put initial_mem 1 1)
          = Some (2, Mem.put (Mem.put initial_mem 1 1) 2 1)) as E2
    by (vm_compute; reflexivity).
  split; [exact E1|]. split; [exact E2|].
  apply (allocate_next_page_twice _ _ _ _ _ wf_initial_mem E1 E2); lia.
Defined.

(** ** Addresses *)

(** X3: for a page below [PAGE_COUNT] and an offset below [PAGE_SIZE],
    [get_address] lies inside the array, in the 256 cells of that page; two
    such addresses are equal only for the same page and offset. *)
Theorem get_address_in_page page offset page' offset' :
  0 <= page < PAGE_COUNT -> 0 <= offset < PAGE_SIZE ->
  0 <= page' < PAGE_COUNT -> 0 <= offset' < PAGE_SIZE ->
  0 <= get_address page offset < MEM_SIZE /\
  page * PAGE_SIZE <= get_address page offset < (page + 1) * PAGE_SIZE /\
  (get_address page offset = get_address page' offset' ->
   page = page' /\ offset = offset').
Proof.
  intros Hp Ho Hp' Ho'. rewrite !get_address_add by assumption.
  unfold PAGE_COUNT, PAGE_SIZE, MEM_SIZE in *. lia.
Qed.

Lemma get_address_in_page_witness :
  (0 <= 63 < PAGE_COUNT /\ 0 <= 255 < PAGE_SIZE) /\
  0 <= get_address 63 255 < MEM_SIZE.
Proof.
  assert (0 <= 63 < PAGE_COUNT) as Hp by (unfold PAGE_COUNT; lia).
  assert (0 <= 255 < PAGE_SIZE) as Ho by (unfold PAGE_SIZE; lia).
  split; [split; assumption|].
  exact (proj1 (get_address_in_page 63 255 63 255 Hp Ho Hp Ho)).
Defined.

(** X4: an offset of [PAGE_SIZE] or more does not move to the following
    pages: its high bits are or-ed into the page number.  [get_address
    1 256] is [get_address 1 0], not [get_address 2 0]. *)
Theorem get_address_large_offset page offset :
  get_address page offset
  = get_address (Z.lor page (Z.shiftr offset PAGE_SHIFT))
                (Z.land offset (PAGE_SIZE - 1)) /\
  get_address 1 256 = get_address 1 0.
Proof.
  split; [|reflexivity].
  unfold get_address, PAGE_SHIFT, PAGE_SIZE. change (256 - 1) with (Z.ones 8).
  apply Z.bits_inj'. intros n Hn.
  rewrite !Z.lor_spec, Z.land_spec.
  destruct (Z.ltb_spec n 8) as [Hlt|Hge].
  - rewrite !Z.shiftl_spec_low by assumption.
    rewrite Z.ones_spec_low by lia. simpl. now rewrite andb_true_r.
  - rewrite !Z.shiftl_spec by assumption. rewrite Z.lor_spec.
    rewrite Z.shiftr_spec by lia. rewrite Z.ones_spec_high by lia.
    replace (n - 8 + 8) with n by lia.
    rewrite andb_false_r, orb_false_r. reflexivity.
Qed.

(** ** The directory *)

(** X5: [set_page_table] followed by [get_page_table] for the same process
    reads back the page number as an [unsigned char]; the entries of the
    other processes and every other cell are as before; both fail when
    [PTP_OFFSET + proc_num] is not an index of the array. *)
Theorem set_then_get_page_table p page m :
  Mem.wf m ->
  (0 <= PTP_OFFSET + p < MEM_SIZE ->
   exists m',
     set_page_table p page m = Some (tt, m') /\ Mem.wf m' /\
     get_page_table p m' = Some (page mod 256, m') /\
     (forall a, a <> PTP_OFFSET + p -> Mem.at_ m' a = Mem.at_ m a) /\
     (forall q, q <> p ->
                result (get_page_table q) m' = result (get_page_table q) m)) /\
  (~ 0 <= PTP_OFFSET + p < MEM_SIZE ->
   set_page_table p page m = None /\ get_page_table p m = None).
Proof.
  intros Hwf. split.
  - intros Hp. exists (Mem.put m (PTP_OFFSET + p) page).
    assert (Mem.wf (Mem.put m (PTP_OFFSET + p) page)) as Hwf'
      by now apply MemFacts.wf_put.
    assert (forall a, a <> PTP_OFFSET + p ->
              Mem.at_ (Mem.put m (PTP_OFFSET + p) page) a = Mem.at_ m a) as Hframe.
    { intros a Ha. apply MemFacts.at_put_other; [lia|assumption]. }
    split.
    { unfold set_page_table. rewrite directory_address. now apply store_ok. }
    split; [assumption|]. split.
    { rewrite get_page_table_ok by assumption. unfold directory_entry.
      now rewrite MemFacts.at_put_same. }
    split; [assumption|].
    intros q Hq. unfold result, get_page_table. rewrite !directory_address.
    destruct (Z.leb_spec 0 (PTP_OFFSET + q)) as [Hlo|Hlo];
      [destruct (Z.ltb_spec (PTP_OFFSET + q) MEM_SIZE) as [Hhi|Hhi]|].
    + rewrite !load_ok by (assumption || lia). rewrite Hframe by lia. reflexivity.
    + unfold load. rewrite !get_outside by lia. reflexivity.
    + unfold load. rewrite !get_outside by lia. reflexivity.
  - intros Hp. unfold set_page_table, get_page_table. rewrite directory_address.
    unfold store, load, Mem.set.
    rewrite get_outside by assumption.
    destruct (Mem.in_range (PTP_OFFSET + p)) eqn:E; [|auto].
    apply MemFacts.in_range_spec in E. contradiction.
Qed.

Lemma set_then_get_page_table_witness :
  Mem.wf initial_mem /\ 0 <= PTP_OFFSET + 5 < MEM_SIZE /\
  exists m', set_page_table 5 300 initial_mem = Some (tt, m') /\
             get_page_table 5 m' = Some (44, m').
Proof.
  assert (0 <= PTP_OFFSET + 5 < MEM_SIZE) as Hp
    by (unfold PTP_OFFSET, MEM_SIZE; lia).
  split; [apply wf_initial_mem|]. split; [exact Hp|].
  destruct (proj1 (set_then_get_page_table 5 300 initial_mem wf_initial_mem) Hp)
    as (m' & Hset & _ & Hget & _).
  exists m'. split; [exact Hset|exact Hget].
Defined.

(** ** Initialization *)

(** X6: whatever the array held, [initialize_mem] leaves a well-formed
    memory in which cell 0 is 1 and every other cell is 0: page 0 is the
    only allocated page (63 free pages) and no process has a page table. *)
Theorem initialize_mem_state m :
  exists m',
    initialize_mem m = Some (tt, m') /\ Mem.wf m' /\
    Mem.at_ m' 0 = 1 /\ (forall a, a <> 0 -> Mem.at_ m' a = 0) /\
    free_pages m' = 63 /\
    (forall p, 0 <= p -> directory_entry m' p = 0).
Proof.
  exists initial_mem.
  assert (forall a, a <> 0 -> Mem.at_ initial_mem a = 0) as Hzero.
  { intros a Ha. change initial_mem with (Mem.put Mem.zeroed 0 1).
    rewrite MemFacts.at_put_other by lia.
    unfold Mem.at_, Mem.get, Mem.zeroed.
    destruct (Mem.in_range a); [|reflexivity].
    destruct (replicate (Z.to_nat MEM_SIZE) 0 !! Z.to_nat a) as [b|] eqn:E;
      [|reflexivity].
    apply lookup_replicate in E as [-> _]. reflexivity. }
  split; [reflexivity|]. split; [apply wf_initial_mem|].
  split; [reflexivity|]. split; [assumption|]. split; [reflexivity|].
  intros p Hp. unfold directory_entry. apply Hzero. unfold PTP_OFFSET. lia.
Qed.

(** ** Creating a process, continued *)

(** The loop of [new_process] runs to completion, and its report is
    decided by the number of free pages. *)
Lemma map_data_pages_outcome n p T i m :
  Mem.wf m -> 1 <= T < PAGE_COUNT -> Mem.at_ m 0 <> 0 ->
  0 <= i -> i + free_pages m <= PAGE_COUNT ->
  exists r m',
    map_data_pages n p T i m = Some (r, m') /\ Mem.wf m' /\
    ((Z.of_nat n <= free_pages m /\ r = Created /\
      free_pages m' = free_pages m - Z.of_nat n)
     \/ (free_pages m < Z.of_nat n /\ r = OOM_data_page p /\ free_pages m' = 0)).
Proof.
  revert i m. induction n as [|n IH]; intros i m Hwf HT H0 Hi Hfree.
  - exists Created, m. split; [reflexivity|]. split; [assumption|].
    left. pose proof (count_free_bounds (Z.to_nat PTP_OFFSET) 0 m) as Hb.
    fold (free_pages m) in Hb. split; [lia|]. split; [reflexivity|lia].
  - destruct (allocate_next_page_cases m Hwf)
      as [(page & Hpage & Hz & Hlow & Halloc)|[Hfull Halloc]].
    + destruct (allocated_facts m page Hwf Hpage Hz)
        as (Hwf1 & H1 & Hframe1 & Hkeep1 & Hfree1).
      set (m1 := Mem.put m page 1) in *.
      pose proof (count_free_bounds (Z.to_nat PTP_OFFSET) 0 m1) as Hb1.
      fold (free_pages m1) in Hb1.
      unfold PAGE_COUNT, PTP_OFFSET in *.
      assert (get_address T i = T * 256 + i) as Haddr
        by (apply get_address_add; unfold PAGE_SIZE; lia).
      assert (0 <= get_address T i < MEM_SIZE) as Hin
        by (rewrite Haddr; unfold MEM_SIZE; lia).
      rewrite (map_data_pages_step n p T i m page Hwf Hpage Halloc Hin).
      fold m1. set (m2 := Mem.put m1 (get_address T i) page).
      assert (forall a, a < 256 -> Mem.at_ m2 a = Mem.at_ m1 a) as Hframe2.
      { intros a Ha. apply MemFacts.at_put_other; lia. }
      assert (free_pages m2 = free_pages m1) as Hfree2.
      { apply count_free_ext. intros a Ha. apply Hframe2.
        unfold PTP_OFFSET in Ha. lia. }
      assert (Mem.wf m2) as Hwf2 by now apply MemFacts.wf_put.
      assert (Mem.at_ m2 0 <> 0) as H02.
      { rewrite Hframe2 by lia. now rewrite Hkeep1. }
      destruct (IH (i + 1) m2 Hwf2 HT H02 ltac:(lia) ltac:(lia))
        as (r & m' & Hrun & Hwf' & Hcases).
      exists r, m'. split; [assumption|]. split; [assumption|].
      destruct Hcases as [(Hle & -> & Hcount)|(Hlt & -> & Hcount)].
      * left. split; [lia|]. split; [reflexivity|lia].
      * right. split; [lia|]. auto.
    + exists (OOM_data_page p), m. split.
      { simpl map_data_pages. now rewrite (bind_eq _ _ _ _ _ Halloc). }
      split; [assumption|]. right.
      apply free_pages_zero_iff in Hfull. split; [lia|]. auto.
Qed.

(** X7: with page 0 marked allocated, [new_process p k] runs to
    completion and its report is decided by the number of free pages: it
    succeeds when at least [k + 1] pages are free and then uses up exactly
    [k + 1]; it fails on the page table when none is free, leaving the
    memory as it is; otherwise it fails on a data page after using up every
    free page. *)
Theorem new_process_outcome p k m :
  Mem.wf m -> Mem.at_ m 0 <> 0 -> 0 <= p < PAGE_COUNT -> 0 <= k ->
  exists r m',
    new_process p k m = Some (r, m') /\ Mem.wf m' /\
    ((k + 1 <= free_pages m /\ r = Created /\
      free_pages m' = free_pages m - (k + 1))
     \/ (free_pages m = 0 /\ r = OOM_page_table p /\ m' = m)
     \/ (1 <= free_pages m <= k /\ r = OOM_data_page p /\ free_pages m' = 0)).
Proof.
  intros Hwf H0 Hp Hk.
  destruct (allocate_next_page_cases m Hwf)
    as [(T & HT & Hz & Hlow & Halloc)|[Hfull Halloc]].
  - destruct (loop_entry_facts m p T Hwf Hp HT Hz Hlow)
      as (Hwf0 & H00 & Hfree0 & Hcount0 & _).
    assert (1 <= T < PAGE_COUNT) as HT'.
    { assert (T <> 0) by congruence. unfold PTP_OFFSET, PAGE_COUNT in *. lia. }
    assert (0 <= PTP_OFFSET + p < MEM_SIZE) as Hdir
      by (unfold PTP_OFFSET, PAGE_COUNT, MEM_SIZE in *; lia).
    destruct (map_data_pages_outcome (Z.to_nat k) p T 0 _ Hwf0 HT' H00
                (Z.le_refl 0) Hfree0) as (r & m' & Hrun & Hwf' & Hcases).
    exists r, m'. rewrite (new_process_created p k m T Hwf Hdir HT Halloc).
    split; [assumption|]. split; [assumption|].
    rewrite Z2Nat.id in Hcases by assumption.
    pose proof (count_free_bounds (Z.to_nat PTP_OFFSET) 0 (with_page_table m p T))
      as Hb.
    fold (free_pages (with_page_table m p T)) in Hb.
    destruct Hcases as [(Hle & -> & Hcount)|(Hlt & -> & Hcount)].
    + left. split; [lia|]. split; [reflexivity|lia].
    + right. right. split; [lia|]. auto.
  - exists (OOM_page_table p), m. split.
    { unfold new_process. now rewrite (bind_eq _ _ _ _ _ Halloc). }
    split; [assumption|]. right. left.
    apply free_pages_zero_iff in Hfull. auto.
Qed.

Lemma new_process_outcome_witness :
  Mem.wf initial_mem /\ Mem.at_ initial_mem 0 <> 0 /\
  exists m', new_process 0 62 initial_mem = Some (Created, m') /\
             free_pages m' = 0.
Proof.
  assert (Mem.at_ initial_mem 0 <> 0) as H0 by (vm_compute; discriminate).
  split; [apply wf_initial_mem|]. split; [exact H0|].
  destruct (new_process_outcome 0 62 initial_mem wf_initial_mem H0)
    as (r & m' & Hrun & _ & [(_ & -> & Hcount)|[(Hfree & _)|(Hfree & _)]]);
    try (unfold PAGE_COUNT; lia).
  - exists m'. split; [exact Hrun|]. rewrite Hcount. reflexivity.
  - exfalso. vm_compute in Hfree. discriminate.
  - exfalso. vm_compute in Hfree. destruct Hfree as [_ Hle]. apply Hle. reflexivity.
Defined.

(** The pages mapped by the loop of [new_process] lie above every cell
    that was already allocated up to [b], and come in increasing order. *)
Lemma map_data_pages_increasing n p T i m m' b :
  Mem.wf m -> 1 <= T < PAGE_COUNT -> Mem.at_ m 0 <> 0 ->
  0 <= i -> i + free_pages m <= PAGE_COUNT ->
  map_data_pages n p T i m = Some (Created, m') ->
  (forall a, 0 <= a <= b -> Mem.at_ m a <> 0) ->
  (forall j, i <= j < i + Z.of_nat n -> b < pte m' T j) /\
  (forall j j', i <= j -> j < j' -> j' < i + Z.of_nat n ->
                pte m' T j < pte m' T j').
Proof.
  revert i m b. induction n as [|n IH]; intros i m b Hwf HT H0 Hi Hfree Hrun Hb.
  - split; intros; lia.
  - assert (0 <= T < PAGE_COUNT) as HT' by lia.
    pose proof (map_data_pages_entries _ _ _ _ _ _ Hwf HT' H0 Hi Hfree Hrun i
                  ltac:(lia)) as (_ & mj & mj' & Hpre & Hfirst).
    rewrite Z.sub_diag in Hpre. apply ret_inv in Hpre as [_ ->].
    simpl map_data_pages in Hrun.
    apply bind_inv in Hrun as (page & m1 & Halloc & Hrun).
    rewrite Hfirst in Halloc. injection Halloc as <- <-.
    apply allocate_next_page_inv in Hfirst; [|assumption].
    destruct Hfirst as [(E & -> & Hfull)|(Hpage & Hz & Hlow & ->)].
    { rewrite E in Hrun. simpl in Hrun. apply ret_inv in Hrun as [? _].
      discriminate. }
    set (page := pte m' T i) in *.
    destruct (Z.eqb_spec page (-1)) as [E|_]; [lia|].
    apply bind_inv in Hrun as ([] & m2 & Hstore & Hrun).
    apply store_inv in Hstore as [Haddr ->].
    destruct (allocated_facts m page Hwf Hpage Hz)
      as (Hwf1 & H1 & Hframe1 & Hkeep1 & Hfree1).
    set (m1 := Mem.put m page 1) in *.
    set (m2 := Mem.put m1 (get_address T i) page) in *.
    pose proof (count_free_bounds (Z.to_nat PTP_OFFSET) 0 m1) as Hb1.
    fold (free_pages m1) in Hb1.
    unfold PAGE_COUNT, PTP_OFFSET in *.
    assert (256 <= get_address T i) as Hhigh.
    { rewrite get_address_add by (unfold PAGE_SIZE; lia). lia. }
    assert (forall a, a < 256 -> Mem.at_ m2 a = Mem.at_ m1 a) as Hframe2.
    { intros a Ha. apply MemFacts.at_put_other; lia. }
    assert (free_pages m2 = free_pages m1) as Hfree2.
    { apply count_free_ext. intros a Ha. apply Hframe2.
      unfold PTP_OFFSET in Ha. lia. }
    assert (Mem.wf m2) as Hwf2 by now apply MemFacts.wf_put.
    assert (Mem.at_ m2 0 <> 0) as H02.
    { rewrite Hframe2 by lia. now rewrite Hkeep1. }
    assert (b < page) as Hbp.
    { destruct (Z.lt_ge_cases b page) as [Hlt|Hge]; [assumption|exfalso].
      apply (Hb page); [lia|assumption]. }
    assert (forall a, 0 <= a <= page -> Mem.at_ m2 a <> 0) as Hb2.
    { intros a Ha. rewrite Hframe2 by lia.
      destruct (Z.eq_dec a page) as [->|Hne]; [lia|].
      rewrite Hframe1 by assumption. apply Hlow. lia. }
    destruct (IH (i + 1) m2 page Hwf2 HT H02 ltac:(lia) ltac:(lia) Hrun Hb2)
      as [Habove Hincr].
    split.
    + intros j Hj. destruct (Z.eq_dec j i) as [->|Hne]; [assumption|].
      specialize (Habove j ltac:(lia)). lia.
    + intros j j' Hj Hjj' Hj'. destruct (Z.eq_dec j i) as [->|Hne].
      * apply Habove. lia.
      * apply Hincr; lia.
Qed.

(** X8: with page 0 marked allocated, a successful [new_process p k]
    records a page table [T >= 1] that was free, and maps in its entries
    [0 .. k-1] pages that were free and are now allocated, all above [T]
    and below [PTP_OFFSET], in strictly increasing order: no entry is 0,
    none is [T], no two are equal. *)
Theorem new_process_maps_fresh_pages p k m m1 T :
  Mem.wf m -> Mem.at_ m 0 <> 0 -> 0 <= p < PAGE_COUNT -> 0 <= k ->
  new_process p k m = Some (Created, m1) ->
  T = directory_entry m1 p ->
  (1 <= T < PTP_OFFSET /\ Mem.at_ m T = 0 /\ Mem.at_ m1 T = 1) /\
  (forall j, 0 <= j < k ->
     T < pte m1 T j < PTP_OFFSET /\
     Mem.at_ m (pte m1 T j) = 0 /\ Mem.at_ m1 (pte m1 T j) = 1) /\
  (forall j j', 0 <= j -> j < j' -> j' < k -> pte m1 T j < pte m1 T j').
Proof.
  intros Hwf H0 Hp Hk Hnew HT.
  apply new_process_inv in Hnew; [|assumption].
  destruct Hnew as [([=] & _)|(T0 & HT0 & Hz & Hlow & Halloc & Hdir & Hloop)].
  destruct (loop_entry_facts m p T0 Hwf Hp HT0 Hz Hlow)
    as (Hwf0 & H00 & Hfree0 & Hcount0 & Hdir0).
  destruct (with_page_table_facts m p T0 Hwf Hp HT0 Hz Hlow)
    as (_ & _ & HT01 & _ & Hframe0 & _).
  assert (1 <= T0 < PAGE_COUNT) as HT0'.
  { assert (T0 <> 0) by congruence. unfold PTP_OFFSET, PAGE_COUNT in *. lia. }
  assert (0 <= T0 < PAGE_COUNT) as HT0'' by lia.
  assert (T = T0) as ->.
  { rewrite HT, <- Hdir0.
    exact (map_data_pages_directory _ p T0 _ m1 Hwf0 Hp HT0'' H00 Hfree0 Hloop). }
  destruct (map_data_pages_fresh _ _ _ _ _ _ Hwf0 HT0' H00 (Z.le_refl 0)
              Hfree0 Hloop) as (_ & Hbitmap & Hentries).
  destruct (map_data_pages_frame _ _ _ _ _ _ Hwf0 HT0'' H00 (Z.le_refl 0)
              Hfree0 Hloop) as (_ & _ & Hbound & Hframe & _).
  assert (forall a, 0 <= a <= T0 -> Mem.at_ (with_page_table m p T0) a <> 0) as Hb.
  { intros a Ha. destruct (Z.eq_dec a T0) as [->|Hne]; [lia|].
    rewrite Hframe0; [apply Hlow; lia|assumption|].
    unfold PTP_OFFSET, PAGE_COUNT in *. lia. }
  destruct (map_data_pages_increasing _ _ _ _ _ _ T0 Hwf0 HT0' H00 (Z.le_refl 0)
              Hfree0 Hloop Hb) as [Habove Hincr].
  rewrite Z2Nat.id in Hentries, Habove, Hincr, Hbound by assumption.
  pose proof (count_free_bounds (Z.to_nat PTP_OFFSET) 0 m1) as Hbm1.
  fold (free_pages m1) in Hbm1.
  split; [split; [exact (conj (proj1 HT0') (proj2 HT0))|split; [assumption|]]|split].
  - rewrite Hframe; [assumption|left; lia|].
    intros j Hj. unfold PAGE_COUNT in *.
    rewrite get_address_add by (unfold PAGE_SIZE; lia). lia.
  - intros j Hj.
    destruct (map_data_pages_entries _ _ _ _ _ _ Hwf0 HT0'' H00 (Z.le_refl 0)
                Hfree0 Hloop j ltac:(lia)) as [Hrange _].
    destruct (Hentries j ltac:(lia)) as [Hzj H1j].
    split; [split; [apply Habove; lia|apply Hrange]|].
    split; [|assumption].
    rewrite <- Hframe0; [assumption| |].
    + specialize (Habove j ltac:(lia)). lia.
    + unfold PTP_OFFSET in *. lia.
  - intros j j' Hj Hjj' Hj'. apply Hincr; lia.
Qed.

Lemma new_process_maps_fresh_pages_witness :
  Mem.wf initial_mem /\
  new_process 5 3 initial_mem = Some (Created, after [Np 5 3]) /\
  directory_entry (after [Np 5 3]) 5 = 1 /\
  pte (after [Np 5 3]) 1 0 < pte (after [Np 5 3]) 1 2.
Proof.
  assert (new_process 5 3 initial_mem = Some (Created, after [Np 5 3])) as Hnew
    by (vm_compute; reflexivity).
  assert (1 = directory_entry (after [Np 5 3]) 5) as HT
    by (vm_compute; reflexivity).
  split; [apply wf_initial_mem|]. split; [exact Hnew|]. split; [now symmetry|].
  refine (proj2 (proj2 (new_process_maps_fresh_pages 5 3 initial_mem _ 1
                          wf_initial_mem _ _ _ Hnew HT)) 0 2 _ _ _);
    try lia; try (unfold PAGE_COUNT; lia).
  vm_compute. discriminate.
Defined.

(** Whatever it reports, the loop of [new_process] has run some number of
    complete turns. *)
Lemma map_data_pages_turns n p T i m r m' :
  Mem.wf m -> map_data_pages n p T i m = Some (r, m') ->
  exists n', (n' <= n)%nat /\ map_data_pages n' p T i m = Some (Created, m').
Proof.
  intros Hwf Hrun. destruct r as [|q|q].
  - exists n. auto.
  - exfalso. exact (map_data_pages_report _ _ _ _ _ _ _ Hrun).
  - apply map_data_pages_oom in Hrun as (n' & Hlt & _ & Hpre & _); [|assumption].
    exists n'. split; [lia|assumption].
Qed.

(** X9: with page 0 marked allocated, whatever [new_process p k] reports,
    the only cells it changes are bitmap cells of free pages, which it sets
    to 1, the directory byte of [p], and entries [0 .. k-1] of the new page
    table.  It frees nothing, and the directory entries and pages of other
    processes are as before. *)
Theorem new_process_changes_only p k m r m1 :
  Mem.wf m -> Mem.at_ m 0 <> 0 -> 0 <= p < PAGE_COUNT ->
  new_process p k m = Some (r, m1) ->
  forall a, Mem.at_ m1 a <> Mem.at_ m a ->
    (0 <= a < PTP_OFFSET /\ Mem.at_ m a = 0 /\ Mem.at_ m1 a = 1)
    \/ a = PTP_OFFSET + p
    \/ (exists j, 0 <= j < k /\ a = get_address (directory_entry m1 p) j).
Proof.
  intros Hwf H0 Hp Hnew a Ha.
  apply new_process_inv in Hnew; [|assumption].
  destruct Hnew as [(_ & -> & _)|(T & HT & Hz & Hlow & Halloc & Hdir & Hloop)];
    [contradiction|].
  destruct (loop_entry_facts m p T Hwf Hp HT Hz Hlow)
    as (Hwf0 & H00 & Hfree0 & Hcount0 & Hdir0).
  destruct (with_page_table_facts m p T Hwf Hp HT Hz Hlow)
    as (_ & _ & HT1 & _ & Hframe0 & _).
  apply map_data_pages_turns in Hloop as (n & Hn & Hloop); [|assumption].
  assert (1 <= T < PAGE_COUNT) as HT'.
  { assert (T <> 0) by congruence. unfold PTP_OFFSET, PAGE_COUNT in *. lia. }
  assert (0 <= T < PAGE_COUNT) as HT'' by lia.
  rewrite (map_data_pages_directory _ p T _ m1 Hwf0 Hp HT'' H00 Hfree0 Hloop), Hdir0.
  destruct (map_data_pages_fresh _ _ _ _ _ _ Hwf0 HT' H00 (Z.le_refl 0)
              Hfree0 Hloop) as (_ & Hbitmap & _).
  destruct (map_data_pages_frame _ _ _ _ _ _ Hwf0 HT'' H00 (Z.le_refl 0)
              Hfree0 Hloop) as (_ & _ & Hbound & Hframe & _).
  pose proof (count_free_bounds (Z.to_nat PTP_OFFSET) 0 m1) as Hbm1.
  fold (free_pages m1) in Hbm1.
  unfold PAGE_COUNT, PTP_OFFSET in *.
  assert (forall j, 0 <= j < Z.of_nat n -> get_address T j = T * 256 + j) as Haddr.
  { intros j Hj. apply get_address_add. unfold PAGE_SIZE. lia. }
  destruct (Z.eq_dec a (64 + p)) as [->|Hne]; [auto|].
  destruct (Z.le_gt_cases (T * 256) a) as [Hlo|Hlo];
    [destruct (Z.lt_ge_cases a (T * 256 + Z.of_nat n)) as [Hhi|Hhi]|].
  - right. right. exists (a - T * 256). split; [lia|].
    rewrite Haddr by lia. lia.
  - exfalso. apply Ha. rewrite Hframe; [apply Hframe0; lia|right; lia|].
    intros j Hj. rewrite Haddr by lia. lia.
  - destruct (Z.eq_dec a T) as [->|HaT].
    { left. split; [lia|]. split; [assumption|].
      rewrite Hframe; [assumption|left; lia|].
      intros j Hj. rewrite Haddr by lia. lia. }
    assert (Mem.at_ (with_page_table m p T) a = Mem.at_ m a) as Hsame0
      by (apply Hframe0; assumption).
    destruct (Z.lt_ge_cases a 0) as [Hneg|Hpos].
    { exfalso. apply Ha. rewrite !MemFacts.at_outside; [reflexivity|lia|lia]. }
    destruct (Z.lt_ge_cases a 256) as [Hpage0|Hhigh].
    + destruct (Hbitmap a ltac:(unfold PAGE_SIZE; lia))
        as [Hsame|(Hrange & Hz0 & H1 & _)].
      * exfalso. apply Ha. congruence.
      * left. split; [assumption|]. split; [congruence|assumption].
    + exfalso. apply Ha. rewrite Hframe; [assumption|right; lia|].
      intros j Hj. rewrite Haddr by lia. lia.
Qed.

Lemma new_process_changes_only_witness :
  Mem.wf initial_mem /\
  new_process 5 3 initial_mem = Some (Created, after [Np 5 3]) /\
  Mem.at_ (after [Np 5 3]) 69 <> Mem.at_ initial_mem 69 /\
  ((0 <= 69 < PTP_OFFSET /\ Mem.at_ initial_mem 69 = 0 /\
    Mem.at_ (after [Np 5 3]) 69 = 1)
   \/ 69 = PTP_OFFSET + 5
   \/ exists j, 0 <= j < 3 /\
                69 = get_address (directory_entry (after [Np 5 3]) 5) j).
Proof.
  assert (new_process 5 3 initial_mem = Some (Created, after [Np 5 3])) as Hnew
    by (vm_compute; reflexivity).
  assert (Mem.at_ (after [Np 5 3]) 69 <> Mem.at_ initial_mem 69) as Hne
    by (vm_compute; discriminate).
  split; [apply wf_initial_mem|]. split; [exact Hnew|]. split; [exact Hne|].
  apply (new_process_changes_only 5 3 initial_mem Created _ wf_initial_mem);
    [vm_compute; discriminate|unfold PAGE_COUNT; lia|exact Hnew|exact Hne].
Defined.

(** ** Killing a process, continued *)

(** X10: when the directory entry [T] of [p] is nonzero, [kill_process p]
    clears exactly the cell [T] and the cells whose index is a nonzero
    entry of page [T], at any of its 256 indices; every other cell is as
    before. *)
Theorem kill_process_postcondition p m m' T :
  Mem.wf m -> kill_process p m = Some (tt, m') ->
  T = directory_entry m p -> T <> 0 ->
  forall a,
    ((a = T \/ (a <> 0 /\ exists j, 0 <= j < PAGE_SIZE /\ pte m T j = a)) ->
     Mem.at_ m' a = 0) /\
    (~ (a = T \/ (a <> 0 /\ exists j, 0 <= j < PAGE_SIZE /\ pte m T j = a)) ->
     Mem.at_ m' a = Mem.at_ m a).
Proof.
  intros Hwf Hkill -> HT a.
  pose proof (kill_process_effect _ _ _ _ Hwf Hkill) as (_ & Hfreed & Heff).
  pose proof (kill_process_frees _ _ _ _ Hwf Hkill) as Hfrees.
  pose proof (MemFacts.at_byte m (PTP_OFFSET + p) Hwf) as HTb.
  fold (directory_entry m p) in HTb.
  split.
  - intros [->|(Hnz & j & Hj & <-)]; [assumption|].
    apply Hfrees; [lia|assumption|assumption].
  - intros Hnot. destruct (Heff a) as [Hsame|[_ Hin]]; [assumption|].
    contradiction.
Qed.

Lemma kill_process_postcondition_witness :
  Mem.wf (after [Np 0 2]) /\
  kill_process 0 (after [Np 0 2]) = Some (tt, after [Np 0 2; Kp 0]) /\
  Mem.at_ (after [Np 0 2; Kp 0]) 3 = 0.
Proof.
  assert (kill_process 0 (after [Np 0 2]) = Some (tt, after [Np 0 2; Kp 0])) as Hkill
    by (vm_compute; reflexivity).
  split; [apply after_wf|]. split; [exact Hkill|].
  apply (kill_process_postcondition 0 (after [Np 0 2]) _ 1 (after_wf _) Hkill).
  - vm_compute. reflexivity.
  - lia.
  - right. split; [lia|]. exists 1. split; [unfold PAGE_SIZE; lia|].
    vm_compute. reflexivity.
Defined.

(** X11: [kill_process] only clears cells, whatever the directory entry:
    every cell is as before or 0, so no page becomes allocated and the
    free-page count does not decrease. *)
Theorem kill_process_only_clears p m m' :
  Mem.wf m -> kill_process p m = Some (tt, m') ->
  Mem.wf m' /\
  (forall a, Mem.at_ m' a = Mem.at_ m a \/ Mem.at_ m' a = 0) /\
  free_pages m <= free_pages m'.
Proof.
  intros Hwf Hkill.
  pose proof (kill_process_effect _ _ _ _ Hwf Hkill) as (Hwf' & _ & Heff).
  assert (forall a, Mem.at_ m' a = Mem.at_ m a \/ Mem.at_ m' a = 0) as Hclears.
  { intros a. destruct (Heff a) as [Hsame|[Hz _]]; auto. }
  split; [assumption|]. split; [assumption|].
  apply count_free_mono. intros a _ Hnz.
  destruct (Hclears a) as [Hsame|Hz]; congruence.
Qed.

Lemma kill_process_only_clears_witness :
  Mem.wf initial_mem /\
  kill_process 0 initial_mem = Some (tt, after [Kp 0]) /\
  free_pages initial_mem <= free_pages (after [Kp 0]).
Proof.
  assert (kill_process 0 initial_mem = Some (tt, after [Kp 0])) as Hkill
    by (vm_compute; reflexivity).
  split; [apply wf_initial_mem|]. split; [exact Hkill|].
  exact (proj2 (proj2 (kill_process_only_clears 0 initial_mem _
                         wf_initial_mem Hkill))).
Defined.

Lemma put_zero_same m a :
  Mem.wf m -> 0 <= a < MEM_SIZE -> Mem.at_ m a = 0 -> Mem.put m a 0 = m.
Proof.
  intros Hwf Ha Hz. pose proof (MemFacts.get_at m a Hwf Ha) as Hget.
  rewrite Hz in Hget. unfold Mem.get in Hget.
  rewrite (proj2 (MemFacts.in_range_spec a) Ha) in Hget.
  unfold Mem.put. now apply list_insert_id.
Qed.

(** The loop of [kill_process] writes nothing new when the pages named by
    the entries are free already. *)
Lemma free_mapped_pages_noop n T i m :
  Mem.wf m -> 0 <= T < PAGE_COUNT -> 0 <= i -> i + Z.of_nat n <= PAGE_SIZE ->
  (forall j, i <= j < i + Z.of_nat n ->
             pte m T j = 0 \/ Mem.at_ m (pte m T j) = 0) ->
  free_mapped_pages n T i m = Some (tt, m).
Proof.
  revert i. induction n as [|n IH]; intros i Hwf HT Hi Hn Hfree; [reflexivity|].
  simpl free_mapped_pages.
  assert (0 <= get_address T i < MEM_SIZE) as Ha.
  { rewrite get_address_add by lia.
    unfold PAGE_COUNT, PAGE_SIZE, MEM_SIZE in *. lia. }
  rewrite (bind_eq _ _ _ _ _ (load_ok _ m Hwf Ha)).
  fold (pte m T i).
  pose proof (MemFacts.at_byte m (get_address T i) Hwf) as Hbyte.
  fold (pte m T i) in Hbyte.
  destruct (Z.eqb_spec (pte m T i) 0) as [Hz|Hnz]; simpl.
  - unfold bind at 1, ret at 1. apply IH; try assumption; try lia.
    intros j Hj. apply Hfree. lia.
  - rewrite (bind_eq _ _ _ _ _
               (store_ok (pte m T i) 0 m ltac:(unfold MEM_SIZE; lia))).
    rewrite put_zero_same; [|assumption|unfold MEM_SIZE; lia|].
    + apply IH; try assumption; try lia. intros j Hj. apply Hfree. lia.
    + destruct (Hfree i ltac:(lia)); [contradiction|assumption].
Qed.

(** X12: killing a process a second time changes nothing, when its
    directory entry [T] is nonzero and survived the first kill (neither [T]
    nor an entry of page [T] is the index of the directory byte). *)
Theorem kill_process_twice p m m' T :
  Mem.wf m -> kill_process p m = Some (tt, m') ->
  T = directory_entry m p -> T <> 0 -> T <> PTP_OFFSET + p ->
  (forall i, 0 <= i < PAGE_SIZE -> pte m T i <> PTP_OFFSET + p) ->
  kill_process p m' = Some (tt, m').
Proof.
  intros Hwf Hkill -> HT HTdir Hentries.
  pose proof (kill_process_effect _ _ _ _ Hwf Hkill) as (Hwf' & Hfreed & Heff).
  pose proof (kill_process_frees _ _ _ _ Hwf Hkill) as Hfrees.
  pose proof (MemFacts.at_byte m (PTP_OFFSET + p) Hwf) as HTb.
  fold (directory_entry m p) in HTb.
  set (T := directory_entry m p) in *.
  specialize (Hfrees ltac:(lia)).
  pose proof (kill_process_inv _ _ _ _ Hwf Hkill) as (Hp & m1 & Hloop & _).
  fold T in Hloop.
  assert (0 <= T < PAGE_COUNT) as HT64.
  { unfold PAGE_SIZE in Hloop. change (Z.to_nat 256) with (S 255) in Hloop.
    simpl free_mapped_pages in Hloop.
    apply bind_inv in Hloop as (page & m0 & Hload & _).
    apply load_inv in Hload as (_ & _ & Ha); [|assumption].
    rewrite get_address_add in Ha by (unfold PAGE_SIZE; lia).
    unfold MEM_SIZE, PAGE_COUNT in *. lia. }
  assert (directory_entry m' p = T) as Hdir'.
  { unfold directory_entry at 1.
    destruct (Heff (PTP_OFFSET + p)) as [Hsame|(_ & [E|(_ & j & Hj & E)])].
    - exact Hsame.
    - symmetry in E. contradiction.
    - exfalso. exact (Hentries j Hj E). }
  assert (forall j, 0 <= j < PAGE_SIZE -> pte m' T j = pte m T j) as Hpte'.
  { intros j Hj. unfold pte.
    destruct (Heff (get_address T j)) as [Hsame|(_ & Hin)]; [assumption|].
    exfalso. rewrite get_address_add in Hin by assumption.
    unfold PAGE_SIZE in *.
    destruct Hin as [E|(_ & j' & _ & E)].
    - lia.
    - pose proof (MemFacts.at_byte m (get_address T j') Hwf) as Hb.
      unfold pte in E. lia. }
  assert (free_mapped_pages (Z.to_nat PAGE_SIZE) T 0 m' = Some (tt, m')) as Hnoop.
  { apply free_mapped_pages_noop; try assumption; try (unfold PAGE_SIZE; lia).
    intros j Hj. assert (0 <= j < PAGE_SIZE) as Hj' by (unfold PAGE_SIZE in *; lia).
    rewrite Hpte' by assumption.
    destruct (Z.eq_dec (pte m T j) 0) as [Hz|Hnz]; [now left|].
    right. now apply Hfrees. }
  unfold kill_process.
  rewrite (bind_eq _ _ _ _ _ (get_page_table_ok p m' Hwf' Hp)), Hdir'.
  rewrite (bind_eq _ _ _ _ _ Hnoop).
  rewrite store_ok by (unfold MEM_SIZE, PAGE_COUNT in *; lia).
  rewrite put_zero_same; [reflexivity|assumption| |assumption].
  unfold MEM_SIZE, PAGE_COUNT in *. lia.
Qed.

Lemma kill_process_twice_witness :
  Mem.wf (after [Np 0 2]) /\
  kill_process 0 (after [Np 0 2]) = Some (tt, after [Np 0 2; Kp 0]) /\
  kill_process 0 (after [Np 0 2; Kp 0]) = Some (tt, after [Np 0 2; Kp 0]).
Proof.
  assert (kill_process 0 (after [Np 0 2]) = Some (tt, after [Np 0 2; Kp 0])) as Hkill
    by (vm_compute; reflexivity).
  split; [apply after_wf|]. split; [exact Hkill|].
  apply (kill_process_twice 0 (after [Np 0 2]) _ 1 (after_wf _) Hkill).
  - vm_compute. reflexivity.
  - lia.
  - unfold PTP_OFFSET. lia.
  - intros i Hi. apply Z.eqb_neq, negb_true_iff.
    apply (all_below_spec (Z.to_nat PAGE_SIZE) 0
             (fun i => negb (pte (after [Np 0 2]) 1 i =? PTP_OFFSET + 0)));
      [vm_compute; reflexivity|unfold PAGE_SIZE in *; lia].
Defined.

(** A kill that runs to completion read its entries inside the array, so
    the directory entry was a page number. *)
Lemma kill_process_table_range p m m' :
  Mem.wf m -> kill_process p m = Some (tt, m') ->
  0 <= directory_entry m p < PAGE_COUNT.
Proof.
  intros Hwf Hkill.
  pose proof (MemFacts.at_byte m (PTP_OFFSET + p) Hwf) as HTb.
  fold (directory_entry m p) in HTb.
  apply kill_process_inv in Hkill as (_ & m1 & Hloop & _); [|assumption].
  unfold PAGE_SIZE in Hloop. change (Z.to_nat 256) with (S 255) in Hloop.
  simpl free_mapped_pages in Hloop.
  apply bind_inv in Hloop as (page & m0 & Hload & _).
  apply load_inv in Hload as (_ & _ & Ha); [|assumption].
  rewrite get_address_add in Ha by (unfold PAGE_SIZE; lia).
  unfold MEM_SIZE, PAGE_COUNT in *. lia.
Qed.

(** X13: after a [kill_process] that ran to completion the next allocation
    succeeds, and returns the freed page-table page or a lower free page:
    a freed page is handed out again, lowest first. *)
Theorem allocate_after_kill_process p m m' :
  Mem.wf m -> kill_process p m = Some (tt, m') ->
  exists page m'',
    allocate_next_page m' = Some (page, m'') /\
    0 <= page <= directory_entry m p /\
    Mem.at_ m' page = 0 /\
    forall j, 0 <= j < page -> Mem.at_ m' j <> 0.
Proof.
  intros Hwf Hkill.
  pose proof (kill_process_table_range _ _ _ Hwf Hkill) as HT.
  pose proof (kill_process_effect _ _ _ _ Hwf Hkill) as (Hwf' & Hfreed & _).
  destruct (allocate_next_page_cases m' Hwf')
    as [(page & Hpage & Hz & Hlow & Halloc)|[Hfull _]].
  - exists page, (Mem.put m' page 1). split; [assumption|].
    split; [|split; assumption]. split; [lia|].
    destruct (Z.le_gt_cases page (directory_entry m p)) as [Hle|Hgt];
      [assumption|exfalso].
    apply (Hlow (directory_entry m p)); [lia|assumption].
  - exfalso. apply (Hfull (directory_entry m p)); [exact HT|assumption].
Qed.

Lemma allocate_after_kill_process_witness :
  Mem.wf (after [Np 0 2; Np 1 1]) /\
  kill_process 0 (after [Np 0 2; Np 1 1])
  = Some (tt, after [Np 0 2; Np 1 1; Kp 0]) /\
  exists page m'',
    allocate_next_page (after [Np 0 2; Np 1 1; Kp 0]) = Some (page, m'') /\
    0 <= page <= 1.
Proof.
  assert (kill_process 0 (after [Np 0 2; Np 1 1])
          = Some (tt, after [Np 0 2; Np 1 1; Kp 0])) as Hkill
    by (vm_compute; reflexivity).
  split; [apply after_wf|]. split; [exact Hkill|].
  destruct (allocate_after_kill_process 0 _ _ (after_wf _) Hkill)
    as (page & m'' & Halloc & Hrange & _).
  exists page, m''. split; [exact Halloc|].
  change (directory_entry (after [Np 0 2; Np 1 1]) 0) with 1 in Hrange.
  exact Hrange.
Defined.

(** ** Translation, stores and loads, continued *)

Lemma translate_virtual_address_ok p vaddr m :
  Mem.wf m -> 0 <= PTP_OFFSET + p < MEM_SIZE ->
  0 <= get_address (directory_entry m p) (pte_index_of vaddr) < MEM_SIZE ->
  translate_virtual_address p vaddr m
  = Some (get_address (pte m (directory_entry m p) (pte_index_of vaddr))
                      (offset_of vaddr), m).
Proof.
  intros Hwf Hp Hentry. unfold translate_virtual_address.
  rewrite (bind_eq _ _ _ _ _ (get_page_table_ok p m Hwf Hp)).
  now rewrite (bind_eq _ _ _ _ _ (load_ok _ m Hwf Hentry)).
Qed.

Lemma translate_virtual_address_range p vaddr m addr m' :
  Mem.wf m -> translate_virtual_address p vaddr m = Some (addr, m') ->
  0 <= PTP_OFFSET + p < MEM_SIZE /\
  0 <= get_address (directory_entry m p) (pte_index_of vaddr) < MEM_SIZE.
Proof.
  intros Hwf H. unfold translate_virtual_address in H.
  apply bind_inv in H as (T & m0 & Hget & H).
  apply get_page_table_inv in Hget as (-> & -> & Hp); [|assumption].
  apply bind_inv in H as (page & m1 & Hload & H).
  apply load_inv in Hload as (_ & _ & Ha); [|assumption]. auto.
Qed.

(** Translation reads two cells only. *)
Lemma translate_virtual_address_agree p vaddr m m' addr :
  Mem.wf m -> Mem.wf m' ->
  translate_virtual_address p vaddr m = Some (addr, m) ->
  Mem.at_ m' (PTP_OFFSET + p) = Mem.at_ m (PTP_OFFSET + p) ->
  Mem.at_ m' (get_address (directory_entry m p) (pte_index_of vaddr))
  = Mem.at_ m (get_address (directory_entry m p) (pte_index_of vaddr)) ->
  translate_virtual_address p vaddr m' = Some (addr, m').
Proof.
  intros Hwf Hwf' Htr Hdir Hentry.
  destruct (translate_virtual_address_range _ _ _ _ _ Hwf Htr) as [Hp Ha].
  apply translate_virtual_address_inv in Htr as [_ ->]; [|assumption].
  assert (directory_entry m' p = directory_entry m p) as Hd by exact Hdir.
  rewrite translate_virtual_address_ok; rewrite ?Hd; try assumption.
  unfold pte. now rewrite Hentry.
Qed.

Lemma load_value_ok p vaddr m addr :
  Mem.wf m -> translate_virtual_address p vaddr m = Some (addr, m) ->
  0 <= addr < MEM_SIZE ->
  load_value p vaddr m = Some (Trace p vaddr addr (Mem.at_ m addr), m).
Proof.
  intros Hwf Htr Ha. unfold load_value.
  rewrite (bind_eq _ _ _ _ _ Htr).
  now rewrite (bind_eq _ _ _ _ _ (load_ok addr m Hwf Ha)).
Qed.

Lemma load_value_trace p vaddr m t m' :
  Mem.wf m -> load_value p vaddr m = Some (t, m') ->
  translate_virtual_address p vaddr m = Some (tr_addr t, m) /\
  0 <= tr_addr t < MEM_SIZE /\
  t = Trace p vaddr (tr_addr t) (Mem.at_ m (tr_addr t)).
Proof.
  intros Hwf H. unfold load_value in H.
  apply bind_inv in H as (addr & m0 & Htr & H).
  pose proof (translate_virtual_address_inv _ _ _ _ _ Hwf Htr) as [-> _].
  apply bind_inv in H as (value & m1 & Hload & H).
  apply load_inv in Hload as (-> & -> & Ha); [|assumption].
  apply ret_inv in H as [-> _]. auto.
Qed.

(** X14: the physical address that [translate_virtual_address] returns is
    offset [vaddr & 255] of the page named by the page-table entry:
    splitting it gives that page and that offset back.  It is an index of
    the array exactly when the entry is below [PAGE_COUNT]. *)
Theorem translate_virtual_address_page p vaddr m addr m' page :
  Mem.wf m -> translate_virtual_address p vaddr m = Some (addr, m') ->
  page = pte m (directory_entry m p) (pte_index_of vaddr) ->
  m' = m /\
  addr = page * PAGE_SIZE + offset_of vaddr /\
  pte_index_of addr = page /\ offset_of addr = offset_of vaddr /\
  (0 <= addr < MEM_SIZE <-> page < PAGE_COUNT).
Proof.
  intros Hwf Htr ->.
  apply translate_virtual_address_inv in Htr as [-> ->]; [|assumption].
  pose proof (offset_of_range vaddr) as Ho.
  pose proof (MemFacts.at_byte m (get_address (directory_entry m p)
                                    (pte_index_of vaddr)) Hwf) as Hb.
  fold (pte m (directory_entry m p) (pte_index_of vaddr)) in Hb.
  split; [reflexivity|].
  rewrite pte_index_of_get_address, offset_of_get_address by assumption.
  rewrite get_address_add by assumption.
  unfold PAGE_SIZE, PAGE_COUNT, MEM_SIZE in *.
  repeat split; lia.
Qed.

Lemma translate_virtual_address_page_witness :
  Mem.wf (after [Np 0 2]) /\
  translate_virtual_address 0 300 (after [Np 0 2])
  = Some (812, after [Np 0 2]) /\
  812 = 3 * PAGE_SIZE + offset_of 300 /\ pte_index_of 812 = 3.
Proof.
  assert (translate_virtual_address 0 300 (after [Np 0 2])
          = Some (812, after [Np 0 2])) as Htr
    by (vm_compute; reflexivity).
  split; [apply after_wf|]. split; [exact Htr|].
  destruct (translate_virtual_address_page 0 300 (after [Np 0 2]) _ _ 3
              (after_wf _) Htr ltac:(vm_compute; reflexivity))
    as (_ & Haddr & Hpage & _).
  split; [exact Haddr|exact Hpage].
Defined.

(** X15: a load that follows a store at the same virtual address resolves
    to the same physical address and reads the stored value as an
    [unsigned char], provided the store did not land on one of the two
    cells the translation reads (the directory byte of the process and the
    page-table entry). *)
Theorem store_value_then_load_value p vaddr value m t m' :
  Mem.wf m -> store_value p vaddr value m = Some (t, m') ->
  tr_addr t <> PTP_OFFSET + p ->
  tr_addr t <> get_address (directory_entry m p) (pte_index_of vaddr) ->
  load_value p vaddr m' = Some (Trace p vaddr (tr_addr t) (value mod 256), m').
Proof.
  intros Hwf Hstore Hdir Hentry.
  apply store_value_inv in Hstore as (addr & Htr & Ha & -> & ->); [|assumption].
  simpl in Hdir, Hentry |- *.
  assert (Mem.wf (Mem.put m addr (value mod 256))) as Hwf'
    by now apply MemFacts.wf_put.
  rewrite (load_value_ok p vaddr _ addr Hwf'); [|  |assumption].
  - rewrite MemFacts.at_put_same by assumption.
    now rewrite Z.mod_mod by lia.
  - apply (translate_virtual_address_agree p vaddr m); try assumption;
      apply MemFacts.at_put_other; lia || congruence.
Qed.

Lemma store_value_then_load_value_witness :
  Mem.wf (after [Np 0 2]) /\
  store_value 0 300 1000 (after [Np 0 2])
  = Some (Trace 0 300 812 232, after [Np 0 2; Sb 0 300 1000]) /\
  load_value 0 300 (after [Np 0 2; Sb 0 300 1000])
  = Some (Trace 0 300 812 232, after [Np 0 2; Sb 0 300 1000]).
Proof.
  assert (store_value 0 300 1000 (after [Np 0 2])
          = Some (Trace 0 300 812 232, after [Np 0 2; Sb 0 300 1000])) as Hstore
    by (vm_compute; reflexivity).
  split; [apply after_wf|]. split; [exact Hstore|].
  apply (store_value_then_load_value 0 300 1000 _ _ _ (after_wf _) Hstore).
  - vm_compute. discriminate.
  - vm_compute. discriminate.
Defined.

(** X16: a store leaves the result of any load unchanged, for any process
    and virtual address, provided it landed neither on the cell that load
    reads nor on the two cells its translation reads. *)
Theorem store_value_other_load p vaddr value m t m' q vaddr' l m0 :
  Mem.wf m -> store_value p vaddr value m = Some (t, m') ->
  load_value q vaddr' m = Some (l, m0) ->
  tr_addr t <> tr_addr l ->
  tr_addr t <> PTP_OFFSET + q ->
  tr_addr t <> get_address (directory_entry m q) (pte_index_of vaddr') ->
  load_value q vaddr' m' = Some (l, m').
Proof.
  intros Hwf Hstore Hload Hcell Hdir Hentry.
  apply store_value_inv in Hstore as (addr & _ & Ha & -> & ->); [|assumption].
  simpl in Hcell, Hdir, Hentry.
  apply load_value_trace in Hload as (Htr & Hl & El); [|assumption].
  assert (Mem.wf (Mem.put m addr (value mod 256))) as Hwf'
    by now apply MemFacts.wf_put.
  rewrite (load_value_ok q vaddr' _ (tr_addr l) Hwf'); [| |assumption].
  - rewrite MemFacts.at_put_other by (lia || congruence). now rewrite <- El.
  - apply (translate_virtual_address_agree q vaddr' m); try assumption;
      apply MemFacts.at_put_other; lia || congruence.
Qed.

Lemma store_value_other_load_witness :
  Mem.wf (after [Np 0 2]) /\
  store_value 0 300 7 (after [Np 0 2])
  = Some (Trace 0 300 812 7, after [Np 0 2; Sb 0 300 7]) /\
  load_value 0 5 (after [Np 0 2]) = Some (Trace 0 5 517 0, after [Np 0 2]) /\
  load_value 0 5 (after [Np 0 2; Sb 0 300 7])
  = Some (Trace 0 5 517 0, after [Np 0 2; Sb 0 300 7]).
Proof.
  assert (store_value 0 300 7 (after [Np 0 2])
          = Some (Trace 0 300 812 7, after [Np 0 2; Sb 0 300 7])) as Hstore
    by (vm_compute; reflexivity).
  assert (load_value 0 5 (after [Np 0 2])
          = Some (Trace 0 5 517 0, after [Np 0 2])) as Hload
    by (vm_compute; reflexivity).
  split; [apply after_wf|]. split; [exact Hstore|]. split; [exact Hload|].
  apply (store_value_other_load 0 300 7 _ _ _ 0 5 _ _ (after_wf _) Hstore Hload).
  - vm_compute. discriminate.
  - vm_compute. discriminate.
  - vm_compute. discriminate.
Defined.

(** X17: after a successful [new_process p k] on a memory with page 0
    marked allocated, a store at any virtual address below [k * PAGE_SIZE]
    succeeds and lands in the data page mapped at that index, above the
    page table: page 0 (free map and directory) and the page table of [p]
    are untouched, and the load at that address reads the value back. *)
Theorem store_value_in_mapped_page p k m m1 T vaddr value :
  Mem.wf m -> Mem.at_ m 0 <> 0 -> 0 <= p < PAGE_COUNT ->
  new_process p k m = Some (Created, m1) ->
  T = directory_entry m1 p ->
  0 <= vaddr < k * PAGE_SIZE ->
  exists t m2,
    store_value p vaddr value m1 = Some (t, m2) /\
    tr_addr t = pte m1 T (pte_index_of vaddr) * PAGE_SIZE + offset_of vaddr /\
    T < pte m1 T (pte_index_of vaddr) < PAGE_COUNT /\
    (forall a, 0 <= a < PAGE_SIZE -> Mem.at_ m2 a = Mem.at_ m1 a) /\
    (forall j, 0 <= j < PAGE_SIZE -> pte m2 T j = pte m1 T j) /\
    load_value p vaddr m2
    = Some (Trace p vaddr (tr_addr t) (value mod 256), m2).
Proof.
  intros Hwf H0 Hp Hnew HT Hvaddr.
  assert (0 <= k) as Hk by (unfold PAGE_SIZE in Hvaddr; lia).
  apply new_process_inv in Hnew; [|assumption].
  destruct Hnew as [([=] & _)|(T0 & HT0 & Hz & Hlow & Halloc & Hdir & Hloop)].
  destruct (loop_entry_facts m p T0 Hwf Hp HT0 Hz Hlow)
    as (Hwf0 & H00 & Hfree0 & Hcount0 & Hdir0).
  destruct (with_page_table_facts m p T0 Hwf Hp HT0 Hz Hlow)
    as (_ & _ & HT01 & _ & Hframe0 & _).
  assert (1 <= T0 < PAGE_COUNT) as HT0'.
  { assert (T0 <> 0) by congruence. unfold PTP_OFFSET, PAGE_COUNT in *. lia. }
  assert (0 <= T0 < PAGE_COUNT) as HT0'' by lia.
  assert (directory_entry m1 p = T0) as Hdir1.
  { rewrite <- Hdir0.
    exact (map_data_pages_directory _ p T0 _ m1 Hwf0 Hp HT0'' H00 Hfree0 Hloop). }
  rewrite Hdir1 in HT. subst T.
  destruct (map_data_pages_frame _ _ _ _ _ _ Hwf0 HT0'' H00 (Z.le_refl 0)
              Hfree0 Hloop) as (Hwf1 & _ & Hbound & _ & _).
  assert (forall a, 0 <= a <= T0 -> Mem.at_ (with_page_table m p T0) a <> 0) as Hb.
  { intros a Ha. destruct (Z.eq_dec a T0) as [->|Hne]; [lia|].
    rewrite Hframe0; [apply Hlow; lia|assumption|].
    unfold PTP_OFFSET, PAGE_COUNT in *. lia. }
  destruct (map_data_pages_increasing _ _ _ _ _ _ T0 Hwf0 HT0' H00 (Z.le_refl 0)
              Hfree0 Hloop Hb) as [Habove _].
  rewrite Z2Nat.id in Habove, Hbound by assumption.
  pose proof (offset_of_range vaddr) as Ho.
  set (idx := pte_index_of vaddr).
  assert (0 <= idx < k) as Hidx.
  { unfold idx, pte_index_of. rewrite Z.shiftr_div_pow2 by lia.
    change (2 ^ 8) with 256. unfold PAGE_SIZE in Hvaddr.
    split; [apply Z.div_pos; lia|apply Z.div_lt_upper_bound; lia]. }
  destruct (map_data_pages_entries _ _ _ _ _ _ Hwf0 HT0'' H00 (Z.le_refl 0)
              Hfree0 Hloop idx ltac:(lia)) as [Hrange _].
  specialize (Habove idx ltac:(lia)).
  set (page := pte m1 T0 idx) in *.
  pose proof (count_free_bounds (Z.to_nat PTP_OFFSET) 0 m1) as Hbm1.
  fold (free_pages m1) in Hbm1.
  unfold PAGE_COUNT, PTP_OFFSET, PAGE_SIZE in *.
  assert (0 <= get_address T0 idx < MEM_SIZE) as Hentry.
  { rewrite get_address_add by (unfold PAGE_SIZE; lia). unfold MEM_SIZE. lia. }
  assert (translate_virtual_address p vaddr m1
          = Some (get_address page (offset_of vaddr), m1)) as Htr.
  { rewrite translate_virtual_address_ok; rewrite ?Hdir1; try assumption.
    reflexivity. }
  assert (get_address page (offset_of vaddr) = page * 256 + offset_of vaddr)
    as Haddr by (apply get_address_add; assumption).
  set (addr := get_address page (offset_of vaddr)) in *.
  assert (0 <= addr < MEM_SIZE) as Hin by (unfold MEM_SIZE; lia).
  set (m2 := Mem.put m1 addr (value mod 256)).
  assert (Mem.wf m2) as Hwf2 by now apply MemFacts.wf_put.
  assert (forall a, a <> addr -> Mem.at_ m2 a = Mem.at_ m1 a) as Hframe2.
  { intros a Ha. apply MemFacts.at_put_other; [lia|assumption]. }
  exists (Trace p vaddr addr (value mod 256)), m2.
  split.
  { unfold store_value. rewrite (bind_eq _ _ _ _ _ Htr).
    now rewrite (bind_eq _ _ _ _ _ (store_ok addr _ m1 Hin)). }
  simpl tr_addr. split; [lia|]. split; [lia|]. split.
  { intros a Ha. apply Hframe2. lia. }
  split.
  { intros j Hj. unfold pte. apply Hframe2.
    rewrite get_address_add by (unfold PAGE_SIZE; lia). lia. }
  rewrite (load_value_ok p vaddr m2 addr Hwf2); [| |assumption].
  - unfold m2. rewrite MemFacts.at_put_same by assumption.
    now rewrite Z.mod_mod by lia.
  - apply (translate_virtual_address_agree p vaddr m1); try assumption;
      rewrite ?Hdir1; apply Hframe2.
    + unfold PTP_OFFSET. lia.
    + fold idx. rewrite get_address_add by (unfold PAGE_SIZE; lia). lia.
Qed.

Lemma store_value_in_mapped_page_witness :
  Mem.wf initial_mem /\
  new_process 5 3 initial_mem = Some (Created, after [Np 5 3]) /\
  exists t m2,
    store_value 5 700 9 (after [Np 5 3]) = Some (t, m2) /\
    load_value 5 700 m2 = Some (Trace 5 700 (tr_addr t) 9, m2).
Proof.
  assert (new_process 5 3 initial_mem = Some (Created, after [Np 5 3])) as Hnew
    by (vm_compute; reflexivity).
  split; [apply wf_initial_mem|]. split; [exact Hnew|].
  destruct (store_value_in_mapped_page 5 3 initial_mem _ 1 700 9
              wf_initial_mem ltac:(vm_compute; discriminate)
              ltac:(unfold PAGE_COUNT; lia) Hnew
              ltac:(vm_compute; reflexivity) ltac:(unfold PAGE_SIZE; lia))
    as (t & m2 & Hstore & _ & _ & _ & _ & Hload).
  exists t, m2. split; [exact Hstore|exact Hload].
Defined.

(** ** The two listings *)

Lemma map_chars_app out1 out2 :
  map_chars (out1 ++ out2) = map_chars out1 ++ map_chars out2.
Proof. apply flat_map_app. Qed.

Lemma table_lines_app out1 out2 :
  table_lines (out1 ++ out2) = table_lines out1 ++ table_lines out2.
Proof. apply flat_map_app. Qed.

Lemma page_free_map_loop_spec n i m :
  Mem.wf m -> 0 <= i -> i + Z.of_nat n <= MEM_SIZE ->
  exists out,
    page_free_map_loop n i m = Some (out, m) /\
    length (map_chars out) = n /\
    (forall j, 0 <= j < Z.of_nat n ->
       map_chars out !! Z.to_nat j
       = Some (if Mem.at_ m (i + j) =? 0 then dot else hash)) /\
    Z.of_nat (count_occ Z.eq_dec (map_chars out) dot) = count_free n i m.
Proof.
  intros Hwf. revert i. induction n as [|n IH]; intros i Hi Hn.
  - exists []. split; [reflexivity|]. split; [reflexivity|].
    split; [intros j Hj; lia|reflexivity].
  - destruct (IH (i + 1) ltac:(lia) ltac:(lia)) as (rest & Hrun & Hlen & Hnth & Hcount).
    simpl page_free_map_loop. rewrite get_address_zero_page.
    rewrite (bind_eq _ _ _ _ _ (load_ok i m Hwf ltac:(lia))).
    rewrite (bind_eq _ _ _ _ _ Hrun).
    exists ((Printf "%c" [if Mem.at_ m i =? 0 then dot else hash]
             :: (if Z.rem (i + 1) 16 =? 0 then [Putchar newline] else []))
            ++ rest).
    split; [reflexivity|].
    rewrite map_chars_app.
    assert (map_chars
              (Printf "%c" [if Mem.at_ m i =? 0 then dot else hash]
               :: (if Z.rem (i + 1) 16 =? 0 then [Putchar newline] else []))
            = [if Mem.at_ m i =? 0 then dot else hash]) as ->.
    { destruct (Z.rem (i + 1) 16 =? 0); reflexivity. }
    split; [simpl; now rewrite Hlen|]. split.
    + intros j Hj. destruct (Z.eq_dec j 0) as [->|Hne].
      * simpl. now rewrite Z.add_0_r.
      * replace (Z.to_nat j) with (S (Z.to_nat (j - 1))) by lia. simpl.
        rewrite Hnth by lia.
        replace (i + 1 + (j - 1)) with (i + j) by lia. reflexivity.
    + simpl app. simpl count_free. rewrite <- Hcount.
      destruct (Z.eqb_spec (Mem.at_ m i) 0) as [Hz|Hnz].
      * rewrite count_occ_cons_eq by reflexivity. lia.
      * rewrite count_occ_cons_neq by (unfold hash, dot; lia). lia.
Qed.

(** X18: [print_page_free_map] always runs to completion on a well-formed
    memory and changes nothing.  After its title it prints 64 map
    characters, the one for page [j] being ['.'] when cell [j] is 0 and
    ['#'] otherwise, so the number of dots is the free-page count. *)
Theorem print_page_free_map_shows_free_pages m :
  Mem.wf m ->
  exists out,
    print_page_free_map m
    = Some (Printf "--- PAGE FREE MAP ---\n" [] :: out, m) /\
    length (map_chars out) = 64%nat /\
    (forall j, 0 <= j < 64 ->
       map_chars out !! Z.to_nat j
       = Some (if Mem.at_ m j =? 0 then dot else hash)) /\
    Z.of_nat (count_occ Z.eq_dec (map_chars out) dot) = free_pages m.
Proof.
  intros Hwf.
  destruct (page_free_map_loop_spec 64 0 m Hwf (Z.le_refl 0)
              ltac:(unfold MEM_SIZE; lia)) as (out & Hrun & Hlen & Hnth & Hcount).
  exists out. split.
  { unfold print_page_free_map. now rewrite (bind_eq _ _ _ _ _ Hrun). }
  split; [assumption|]. split; [|exact Hcount].
  intros j Hj. now rewrite Hnth by lia.
Qed.

Lemma print_page_free_map_shows_free_pages_witness :
  Mem.wf (after [Np 0 2]) /\
  exists out,
    result print_page_free_map (after [Np 0 2])
    = Some (Printf "--- PAGE FREE MAP ---\n" [] :: out) /\
    Z.of_nat (count_occ Z.eq_dec (map_chars out) dot) = 60.
Proof.
  split; [apply after_wf|].
  destruct (print_page_free_map_shows_free_pages (after [Np 0 2]) (after_wf _))
    as (out & Hrun & _ & _ & Hcount).
  exists out. split.
  - unfold result. now rewrite Hrun.
  - rewrite Hcount. vm_compute. reflexivity.
Defined.

Lemma page_table_loop_spec n T i m :
  Mem.wf m ->
  (forall j, i <= j < i + Z.of_nat n -> 0 <= get_address T j < MEM_SIZE) ->
  exists out,
    page_table_loop n T i m = Some (out, m) /\
    table_lines out
    = flat_map (fun j => if pte m T j =? 0 then [] else [(j, pte m T j)])
               (seqZ i (Z.of_nat n)).
Proof.
  intros Hwf. revert i. induction n as [|n IH]; intros i Hin.
  - exists []. split; reflexivity.
  - destruct (IH (i + 1)) as (rest & Hrun & Hlines).
    { intros j Hj. apply Hin. lia. }
    simpl page_table_loop.
    rewrite (bind_eq _ _ _ _ _ (load_ok _ m Hwf (Hin i ltac:(lia)))).
    rewrite (bind_eq _ _ _ _ _ Hrun).
    exists ((if negb (Mem.at_ m (get_address T i) =? 0)
             then [Printf "%02x -> %02x\n" [i; Mem.at_ m (get_address T i)]]
             else []) ++ rest).
    split; [reflexivity|].
    rewrite table_lines_app, Hlines.
    rewrite (seqZ_cons i (Z.of_nat (S n))) by lia.
    replace (Z.pred (Z.of_nat (S n))) with (Z.of_nat n) by lia.
    replace (Z.succ i) with (i + 1) by lia.
    simpl flat_map. f_equal. fold (pte m T i).
    destruct (pte m T i =? 0); reflexivity.
Qed.

Lemma print_page_table_spec p m :
  Mem.wf m -> 0 <= PTP_OFFSET + p < MEM_SIZE ->
  directory_entry m p < PAGE_COUNT ->
  exists out,
    print_page_table p m
    = Some (Printf "--- PROCESS %d PAGE TABLE ---\n" [p] :: out, m) /\
    table_lines out
    = flat_map (fun j => if pte m (directory_entry m p) j =? 0 then []
                         else [(j, pte m (directory_entry m p) j)])
               (seqZ 0 PAGE_COUNT).
Proof.
  intros Hwf Hp HT.
  pose proof (MemFacts.at_byte m (PTP_OFFSET + p) Hwf) as HTb.
  fold (directory_entry m p) in HTb.
  destruct (page_table_loop_spec (Z.to_nat PAGE_COUNT) (directory_entry m p) 0 m Hwf)
    as (out & Hrun & Hlines).
  { intros j Hj. unfold PAGE_COUNT in *.
    rewrite get_address_add by (unfold PAGE_SIZE; lia). unfold MEM_SIZE. lia. }
  exists out. split; [|exact Hlines].
  unfold print_page_table.
  rewrite (bind_eq _ _ _ _ _ (get_page_table_ok p m Hwf Hp)).
  now rewrite (bind_eq _ _ _ _ _ Hrun).
Qed.

(** X19: [print_page_table p] runs to completion and changes nothing when
    the directory entry [T] of [p] is a page number.  After its title it
    prints one line for each index below [PAGE_COUNT] whose entry in page
    [T] is nonzero, with that entry, and nothing for the other indices:
    entries at indices 64 to 255, which [kill_process] does scan, are never
    shown. *)
Theorem print_page_table_lists_mapped_entries p m T :
  Mem.wf m -> 0 <= PTP_OFFSET + p < MEM_SIZE ->
  T = directory_entry m p -> T < PAGE_COUNT ->
  exists out,
    print_page_table p m
    = Some (Printf "--- PROCESS %d PAGE TABLE ---\n" [p] :: out, m) /\
    forall j page,
      In (j, page) (table_lines out) <->
      0 <= j < PAGE_COUNT /\ page = pte m T j /\ page <> 0.
Proof.
  intros Hwf Hp -> HT.
  destruct (print_page_table_spec p m Hwf Hp HT) as (out & Hrun & Hlines).
  exists out. split; [assumption|].
  intros j page. rewrite Hlines, in_flat_map. split.
  - intros (j' & Hj' & Hin).
    apply list_elem_of_In, elem_of_seqZ in Hj'.
    destruct (Z.eqb_spec (pte m (directory_entry m p) j') 0) as [Hz|Hnz];
      [destruct Hin|].
    destruct Hin as [[= <- <-]|[]]. split; [lia|]. auto.
  - intros (Hj & -> & Hnz). exists j. split.
    + apply list_elem_of_In, elem_of_seqZ. lia.
    + destruct (Z.eqb_spec (pte m (directory_entry m p) j) 0) as [Hz|_];
        [contradiction|]. now left.
Qed.

Lemma print_page_table_lists_mapped_entries_witness :
  Mem.wf (after [Np 5 3]) /\ 0 <= PTP_OFFSET + 5 < MEM_SIZE /\
  exists out,
    result (print_page_table 5) (after [Np 5 3])
    = Some (Printf "--- PROCESS %d PAGE TABLE ---\n" [5] :: out) /\
    In (2, 4) (table_lines out).
Proof.
  assert (0 <= PTP_OFFSET + 5 < MEM_SIZE) as Hp
    by (unfold PTP_OFFSET, MEM_SIZE; lia).
  split; [apply after_wf|]. split; [exact Hp|].
  destruct (print_page_table_lists_mapped_entries 5 (after [Np 5 3]) 1
              (after_wf _) Hp ltac:(vm_compute; reflexivity)
              ltac:(unfold PAGE_COUNT; lia)) as (out & Hrun & Hlines).
  exists out. split.
  - unfold result. now rewrite Hrun.
  - apply Hlines. split; [unfold PAGE_COUNT; lia|].
    split; [vm_compute; reflexivity|lia].
Defined.

Lemma flat_map_singletons {A B} (f : A -> list B) (g : A -> B) l :
  (forall x, In x l -> f x = [g x]) -> flat_map f l = map g l.
Proof.
  induction l as [|x l IH]; intros H; [reflexivity|].
  simpl. rewrite (H x) by now left. simpl. f_equal.
  apply IH. intros y Hy. apply H. now right.
Qed.

Lemma flat_map_empty {A B} (f : A -> list B) l :
  (forall x, In x l -> f x = []) -> flat_map f l = [].
Proof.
  induction l as [|x l IH]; intros H; [reflexivity|].
  simpl. rewrite (H x) by now left. simpl.
  apply IH. intros y Hy. apply H. now right.
Qed.

(** X20: after a successful [new_process p k] on a memory with page 0
    marked allocated, when the new page table holds no stale entry from
    index [k] up to [PAGE_COUNT], [print_page_table p] prints exactly [k]
    lines: the indices 0 to [k - 1], in order, each with its data page. *)
Theorem new_process_then_print_page_table p k m m1 T :
  Mem.wf m -> Mem.at_ m 0 <> 0 -> 0 <= p < PAGE_COUNT -> 0 <= k ->
  new_process p k m = Some (Created, m1) ->
  T = directory_entry m1 p ->
  (forall j, k <= j < PAGE_COUNT -> pte m1 T j = 0) ->
  exists out,
    print_page_table p m1
    = Some (Printf "--- PROCESS %d PAGE TABLE ---\n" [p] :: out, m1) /\
    table_lines out = map (fun j => (j, pte m1 T j)) (seqZ 0 k).
Proof.
  intros Hwf H0 Hp Hk Hnew HT Hstale.
  pose proof (new_process_keeps _ _ _ _ _ Hwf Hnew) as [Hwf1 _].
  apply new_process_inv in Hnew; [|assumption].
  destruct Hnew as [([=] & _)|(T0 & HT0 & Hz & Hlow & Halloc & Hdir & Hloop)].
  destruct (loop_entry_facts m p T0 Hwf Hp HT0 Hz Hlow)
    as (Hwf0 & H00 & Hfree0 & Hcount0 & Hdir0).
  assert (0 <= T0 < PAGE_COUNT) as HT0' by exact HT0.
  assert (directory_entry m1 p = T0) as Hdir1.
  { rewrite <- Hdir0.
    exact (map_data_pages_directory _ p T0 _ m1 Hwf0 Hp HT0' H00 Hfree0 Hloop). }
  rewrite Hdir1 in HT. subst T.
  destruct (map_data_pages_frame _ _ _ _ _ _ Hwf0 HT0' H00 (Z.le_refl 0)
              Hfree0 Hloop) as (_ & _ & Hbound & _ & Hnz).
  rewrite Z2Nat.id in Hnz, Hbound by assumption.
  pose proof (count_free_bounds (Z.to_nat PTP_OFFSET) 0 m1) as Hb.
  fold (free_pages m1) in Hb.
  assert (k <= PAGE_COUNT) as Hk64 by (unfold PAGE_COUNT in *; lia).
  destruct (print_page_table_spec p m1 Hwf1 Hdir) as (out & Hrun & Hlines);
    [rewrite Hdir1; lia|].
  exists out. split; [assumption|].
  rewrite Hlines, Hdir1.
  replace PAGE_COUNT with (k + (PAGE_COUNT - k)) at 1 by lia.
  rewrite seqZ_app by lia. rewrite flat_map_app.
  rewrite (flat_map_singletons _ (fun j => (j, pte m1 T0 j))).
  - rewrite flat_map_empty; [apply app_nil_r|].
    intros j Hj. apply list_elem_of_In, elem_of_seqZ in Hj.
    rewrite Hstale by lia. reflexivity.
  - intros j Hj. apply list_elem_of_In, elem_of_seqZ in Hj.
    destruct (Z.eqb_spec (pte m1 T0 j) 0) as [E|_]; [|reflexivity].
    exfalso. apply (Hnz j); [lia|assumption].
Qed.

Lemma new_process_then_print_page_table_witness :
  Mem.wf initial_mem /\
  new_process 5 3 initial_mem = Some (Created, after [Np 5 3]) /\
  exists out,
    result (print_page_table 5) (after [Np 5 3])
    = Some (Printf "--- PROCESS %d PAGE TABLE ---\n" [5] :: out) /\
    table_lines out = [(0, 2); (1, 3); (2, 4)].
Proof.
  assert (new_process 5 3 initial_mem = Some (Created, after [Np 5 3])) as Hnew
    by (vm_compute; reflexivity).
  split; [apply wf_initial_mem|]. split; [exact Hnew|].
  destruct (new_process_then_print_page_table 5 3 initial_mem _ 1
              wf_initial_mem ltac:(vm_compute; discriminate)
              ltac:(unfold PAGE_COUNT; lia) ltac:(lia) Hnew
              ltac:(vm_compute; reflexivity)) as (out & Hrun & Hlines).
  - intros j Hj. apply Z.eqb_eq.
    apply (all_below_spec 61 3 (fun j => pte (after [Np 5 3]) 1 j =? 0));
      [vm_compute; reflexivity|unfold PAGE_COUNT in Hj; lia].
  - exists out. split; [unfold result; now rewrite Hrun|].
    rewrite Hlines. vm_compute. reflexivity.
Defined.

(** ** Memories that no store has touched *)

Lemma initialize_mem_state_cells a :
  Mem.at_ initial_mem a = 1 \/ Mem.at_ initial_mem a = 0.
Proof.
  destruct (Z.eq_dec a 0) as [->|Hne]; [now left|right].
  change initial_mem with (Mem.put Mem.zeroed 0 1).
  rewrite MemFacts.at_put_other by lia.
  unfold Mem.at_, Mem.get, Mem.zeroed.
  destruct (Mem.in_range a); [|reflexivity].
  destruct (replicate (Z.to_nat MEM_SIZE) 0 !! Z.to_nat a) as [b|] eqn:E;
    [|reflexivity].
  apply lookup_replicate in E as [-> _]. reflexivity.
Qed.

Lemma put_page_number m a v :
  Mem.wf m -> 0 <= a < MEM_SIZE -> 0 <= v < PTP_OFFSET ->
  (forall x, Mem.at_ m x < PTP_OFFSET) ->
  forall x, Mem.at_ (Mem.put m a v) x < PTP_OFFSET.
Proof.
  intros Hwf Ha Hv Hsmall x. destruct (Z.eq_dec x a) as [->|Hne].
  - rewrite MemFacts.at_put_same by assumption.
    unfold PTP_OFFSET in *. rewrite Z.mod_small; lia.
  - rewrite MemFacts.at_put_other by lia. apply Hsmall.
Qed.

Lemma map_data_pages_page_numbers n p T i m r m' :
  Mem.wf m -> (forall x, Mem.at_ m x < PTP_OFFSET) ->
  map_data_pages n p T i m = Some (r, m') ->
  forall x, Mem.at_ m' x < PTP_OFFSET.
Proof.
  revert i m. induction n as [|n IH]; intros i m Hwf Hsmall Hrun.
  - apply ret_inv in Hrun as [_ ->]. assumption.
  - simpl map_data_pages in Hrun.
    apply bind_inv in Hrun as (page & m1 & Halloc & Hrun).
    apply allocate_next_page_inv in Halloc; [|assumption].
    destruct Halloc as [(-> & -> & _)|(Hpage & Hz & _ & ->)].
    { simpl in Hrun. apply ret_inv in Hrun as [_ ->]. assumption. }
    destruct (Z.eqb_spec page (-1)) as [E|_]; [lia|].
    apply bind_inv in Hrun as ([] & m2 & Hstore & Hrun).
    apply store_inv in Hstore as [Haddr ->].
    assert (Mem.wf (Mem.put m page 1)) as Hwf1 by now apply MemFacts.wf_put.
    refine (IH _ _ (MemFacts.wf_put _ _ _ Hwf1) _ Hrun).
    apply put_page_number; try assumption.
    apply put_page_number; try assumption;
      unfold PTP_OFFSET, MEM_SIZE in *; lia.
Qed.

Lemma run_command_page_numbers c m m' :
  Mem.wf m -> (forall x, Mem.at_ m x < PTP_OFFSET) ->
  is_store c = false -> exec (run_command c) m = Some m' ->
  forall x, Mem.at_ m' x < PTP_OFFSET.
Proof.
  intros Hwf Hsmall Hc H.
  destruct c as [p k|p|p vaddr value|p vaddr]; simpl in H; [| |discriminate|].
  - apply exec_discard_inv in H as [r H].
    apply new_process_inv in H; [|assumption].
    destruct H as [(_ & -> & _)|(T & HT & Hz & _ & _ & Hp & Hloop)];
      [assumption|].
    assert (Mem.wf (Mem.put m T 1)) as Hwf1 by now apply MemFacts.wf_put.
    refine (map_data_pages_page_numbers _ _ _ _ _ _ _
              (MemFacts.wf_put _ _ _ Hwf1) _ Hloop).
    unfold with_page_table. apply put_page_number; try assumption.
    apply put_page_number; try assumption;
      unfold PTP_OFFSET, MEM_SIZE in *; lia.
  - apply exec_unit_inv in H.
    apply kill_process_effect in H as (_ & _ & Heff); [|assumption].
    intros x. destruct (Heff x) as [->|[-> _]]; [apply Hsmall|].
    unfold PTP_OFFSET. lia.
  - apply exec_discard_inv in H as [t H].
    apply load_value_inv in H as ->; assumption.
Qed.

(** X21: in every state reached from the initial memory without
    [store_value], every cell holds a page number below [PTP_OFFSET]; there
    [kill_process] changes cells of the free map only, so that every
    directory entry and every page table is as before. *)
Theorem cells_hold_page_numbers m :
  reachable_without_store m ->
  Mem.wf m /\
  (forall a, 0 <= Mem.at_ m a < PTP_OFFSET) /\
  forall p m', kill_process p m = Some (tt, m') ->
    forall a, PTP_OFFSET <= a -> Mem.at_ m' a = Mem.at_ m a.
Proof.
  intros Hm.
  assert (Mem.wf m /\ forall a, Mem.at_ m a < PTP_OFFSET) as [Hwf Hsmall].
  { induction Hm as [|c m m' _ [Hwf Hsmall] Hc Hstep].
    - split; [apply wf_initial_mem|]. intros a.
      destruct (initialize_mem_state_cells a) as [->| ->]; unfold PTP_OFFSET; lia.
    - split; [exact (run_command_wf _ _ _ Hwf Hstep)|].
      exact (run_command_page_numbers _ _ _ Hwf Hsmall Hc Hstep). }
  split; [assumption|]. split.
  { intros a. pose proof (MemFacts.at_byte m a Hwf). specialize (Hsmall a). lia. }
  intros p m' Hkill a Ha.
  apply kill_process_effect in Hkill as (_ & _ & Heff); [|assumption].
  destruct (Heff a) as [Hsame|(_ & [->|(_ & j & _ & <-)])]; [assumption| |].
  - specialize (Hsmall (PTP_OFFSET + p)). unfold directory_entry in Ha. lia.
  - specialize (Hsmall (get_address (directory_entry m p) j)).
    unfold pte in Ha. lia.
Qed.

Lemma cells_hold_page_numbers_witness :
  reachable_without_store (after [Np 0 2; Kp 0]) /\
  0 <= Mem.at_ (after [Np 0 2; Kp 0]) 256 < PTP_OFFSET.
Proof.
  assert (reachable_without_store (after [Np 0 2; Kp 0])) as Hm.
  { apply (without_store_step (Kp 0) (after [Np 0 2])).
    - apply (without_store_step (Np 0 2) initial_mem).
      + apply without_store_init.
      + reflexivity.
      + vm_compute. reflexivity.
    - reflexivity.
    - vm_compute. reflexivity. }
  split; [exact Hm|].
  exact (proj1 (proj2 (cells_hold_page_numbers _ Hm)) 256).
Defined.

(** ** [main] *)

Lemma print_page_free_map_memory m out m' :
  Mem.wf m -> print_page_free_map m = Some (out, m') -> m' = m.
Proof.
  intros Hwf H.
  destruct (page_free_map_loop_spec 64 0 m Hwf (Z.le_refl 0)
              ltac:(unfold MEM_SIZE; lia)) as (rest & Hrun & _).
  unfold print_page_free_map in H. rewrite (bind_eq _ _ _ _ _ Hrun) in H.
  now apply ret_inv in H as [_ ->].
Qed.

Lemma page_table_loop_memory n T i m out m' :
  Mem.wf m -> page_table_loop n T i m = Some (out, m') -> m' = m.
Proof.
  intros Hwf. revert i out m'. induction n as [|n IH]; intros i out m' H.
  - now apply ret_inv in H as [_ ->].
  - simpl page_table_loop in H.
    apply bind_inv in H as (page & m0 & Hload & H).
    apply load_inv in Hload as (-> & _); [|assumption].
    apply bind_inv in H as (rest & m1 & Hrest & H).
    apply IH in Hrest as ->. now apply ret_inv in H as [_ ->].
Qed.

Lemma print_page_table_memory p m out m' :
  Mem.wf m -> print_page_table p m = Some (out, m') -> m' = m.
Proof.
  intros Hwf H. unfold print_page_table in H.
  apply bind_inv in H as (T & m0 & Hget & H).
  apply get_page_table_inv in Hget as (-> & _); [|assumption].
  apply bind_inv in H as (rest & m1 & Hloop & H).
  apply page_table_loop_memory in Hloop as ->; [|assumption].
  now apply ret_inv in H as [_ ->].
Qed.

Lemma exec_run_commands_cons c cs (m m1 m' : Mem.t) :
  exec (run_command c) m = Some m1 ->
  exec (run_commands cs) m1 = Some m' ->
  exec (run_commands (c :: cs)) m = Some m'.
Proof.
  intros Hc Hcs. apply exec_unit_inv in Hc. apply exec_unit_inv in Hcs.
  unfold exec. simpl run_commands.
  now rewrite (bind_eq _ _ _ _ _ Hc), Hcs.
Qed.

Lemma exec_discard {A} (c : M A) (m : Mem.t) x m' :
  c m = Some (x, m') -> exec (c ;;; ret tt) m = Some m'.
Proof. intros H. unfold exec. now rewrite (bind_eq _ _ _ _ _ H). Qed.

Section MainFacts.

Variable atoi : string -> Z.

Lemma main_loop_commands args cs :
  commands_of atoi args cs ->
  forall m outs m',
    Mem.wf m -> main_loop atoi args m = Some (outs, m') ->
    exec (run_commands cs) m = Some m'.
Proof.
  induction 1 as [|rest cs _ IH|a rest cs _ IH|a b rest cs _ IH|a rest cs _ IH
                  |a b c rest cs _ IH|a b rest cs _ IH|word rest cs Hword _ IH];
    intros m outs m' Hwf Hrun.
  - apply ret_inv in Hrun as [_ ->]. reflexivity.
  - simpl main_loop in Hrun.
    apply bind_inv in Hrun as (out & m1 & Hprint & Hrun).
    apply print_page_free_map_memory in Hprint as ->; [|assumption].
    apply bind_inv in Hrun as (outs' & m2 & Hrest & Hrun).
    apply ret_inv in Hrun as [_ ->]. exact (IH _ _ _ Hwf Hrest).
  - simpl main_loop in Hrun.
    apply bind_inv in Hrun as (out & m1 & Hprint & Hrun).
    apply print_page_table_memory in Hprint as ->; [|assumption].
    apply bind_inv in Hrun as (outs' & m2 & Hrest & Hrun).
    apply ret_inv in Hrun as [_ ->]. exact (IH _ _ _ Hwf Hrest).
  - simpl main_loop in Hrun.
    apply bind_inv in Hrun as (r & m1 & Hnew & Hrun).
    apply bind_inv in Hrun as (outs' & m2 & Hrest & Hrun).
    apply ret_inv in Hrun as [_ ->].
    pose proof (new_process_keeps _ _ _ _ _ Hwf Hnew) as [Hwf1 _].
    apply (exec_run_commands_cons _ _ m m1); [|exact (IH _ _ _ Hwf1 Hrest)].
    exact (exec_discard _ _ _ _ Hnew).
  - simpl main_loop in Hrun.
    apply bind_inv in Hrun as ([] & m1 & Hkill & Hrest).
    pose proof (kill_process_effect _ _ _ _ Hwf Hkill) as [Hwf1 _].
    apply (exec_run_commands_cons _ _ m m1); [|exact (IH _ _ _ Hwf1 Hrest)].
    simpl run_command. unfold exec. now rewrite Hkill.
  - simpl main_loop in Hrun.
    apply bind_inv in Hrun as (t & m1 & Hstore & Hrun).
    apply bind_inv in Hrun as (outs' & m2 & Hrest & Hrun).
    apply ret_inv in Hrun as [_ ->].
    assert (Mem.wf m1) as Hwf1.
    { apply store_value_inv in Hstore as (addr & _ & _ & -> & _); [|assumption].
      now apply MemFacts.wf_put. }
    apply (exec_run_commands_cons _ _ m m1); [|exact (IH _ _ _ Hwf1 Hrest)].
    exact (exec_discard _ _ _ _ Hstore).
  - simpl main_loop in Hrun.
    apply bind_inv in Hrun as (t & m1 & Hload & Hrun).
    apply bind_inv in Hrun as (outs' & m2 & Hrest & Hrun).
    apply ret_inv in Hrun as [_ ->].
    pose proof (load_value_inv _ _ _ _ _ Hwf Hload) as ->.
    apply (exec_run_commands_cons _ _ m m); [|exact (IH _ _ _ Hwf Hrest)].
    exact (exec_discard _ _ _ _ Hload).
  - simpl main_loop in Hrun.
    repeat match type of Hrun with
           | context [String.eqb word ?s] =>
               destruct (String.eqb_spec word s) as [E|_];
                 [exfalso; apply Hword; rewrite E; simpl; tauto|]
           end.
    exact (IH _ _ _ Hwf Hrun).
Qed.

(** X22: without arguments [main] returns 1 and does not initialize the
    array.  Otherwise a run of [main] that completes returns 0, and the
    memory it leaves is the one left by its [np], [kp], [sb] and [lb]
    commands run in order from the initial memory: a failed [np] does not
    stop the run, and [pfm], [ppt] and unknown words change nothing. *)
Theorem main_runs_commands args cs code outs m :
  main atoi [] = Some (1, [Fprintf_stderr "usage: ptsim commands\n"], Mem.zeroed) /\
  (commands_of atoi args cs -> args <> [] ->
   main atoi args = Some (code, outs, m) ->
   code = 0 /\ run_main cs = Some m).
Proof.
  split; [reflexivity|]. intros Hcs Hargs Hmain.
  unfold main in Hmain. simpl negb in Hmain.
  destruct args as [|cmd rest]; [contradiction|].
  set (args := cmd :: rest) in *.
  destruct ((initialize_mem ;;; main_loop atoi args) Mem.zeroed)
    as [[outs' m']|] eqn:E; [|discriminate].
  injection Hmain as <- <- <-. split; [reflexivity|].
  apply bind_inv in E as ([] & m0 & Hinit & Hrun).
  assert (initialize_mem Mem.zeroed = Some (tt, initial_mem)) as Hinit'
    by reflexivity.
  rewrite Hinit' in Hinit. injection Hinit as <-.
  apply (main_loop_commands _ _ Hcs) in Hrun; [|apply wf_initial_mem].
  apply exec_unit_inv in Hrun.
  unfold run_main, exec. rewrite (bind_eq _ _ _ _ _ Hinit'). now rewrite Hrun.
Qed.

End MainFacts.

Lemma main_runs_commands_witness :
  let args := ["np"; "0"; "2"; "pfm"; "sb"; "0"; "300"; "7"; "bogus";
               "kp"; "0"]%string in
  commands_of decimal args [Np 0 2; Sb 0 300 7; Kp 0] /\
  exists outs,
    main decimal args = Some (0, outs, after [Np 0 2; Sb 0 300 7; Kp 0]) /\
    run_main [Np 0 2; Sb 0 300 7; Kp 0]
    = Some (after [Np 0 2; Sb 0 300 7; Kp 0]).
Proof.
  intros args.
  assert (commands_of decimal args [Np 0 2; Sb 0 300 7; Kp 0]) as Hcs.
  { apply (commands_np decimal "0" "2"). apply commands_pfm.
    apply (commands_sb decimal "0" "300" "7").
    apply commands_other.
    - simpl. intros [E|[E|[E|[E|[E|[E|[]]]]]]]; discriminate.
    - apply (commands_kp decimal "0"). apply commands_nil. }
  split; [exact Hcs|].
  destruct (main decimal args) as [[[code outs] m]|] eqn:E.
  - exists outs.
    destruct (proj2 (main_runs_commands decimal args _ code outs m) Hcs
                ltac:(discriminate) E) as [-> Hrun].
    assert (m = after [Np 0 2; Sb 0 300 7; Kp 0]) as ->
      by (unfold after; now rewrite Hrun).
    split; [reflexivity|exact Hrun].
  - exfalso. vm_compute in E. discriminate.
Defined.

(** ** Killing a process that was just created *)

Lemma count_free_succ n i m :
  count_free (S n) i m = count_free 1 i m + count_free n (i + 1) m.
Proof. simpl count_free. lia. Qed.

Lemma count_free_cell a m :
  count_free 1 a m = if Mem.at_ m a =? 0 then 1 else 0.
Proof. simpl count_free. lia. Qed.

(** Free-page counts compared cell by cell: when no cell gains less between
    [B'] and [A'] than between [B] and [A], neither does the count, and one
    cell that gains more makes the count gain more. *)
Lemma count_free_cells n i A B A' B' :
  (forall a, i <= a < i + Z.of_nat n ->
     count_free 1 a A - count_free 1 a B
     <= count_free 1 a A' - count_free 1 a B') ->
  count_free n i A - count_free n i B
  <= count_free n i A' - count_free n i B' /\
  forall a, i <= a < i + Z.of_nat n ->
    count_free 1 a A - count_free 1 a B
    < count_free 1 a A' - count_free 1 a B' ->
    count_free n i A - count_free n i B
    < count_free n i A' - count_free n i B'.
Proof.
  revert i. induction n as [|n IH]; intros i H.
  - split; [simpl; lia|intros a Ha; lia].
  - destruct (IH (i + 1)) as [Hle Hlt]; [intros a Ha; apply H; lia|].
    pose proof (H i ltac:(lia)) as Hi.
    rewrite (count_free_succ n i A), (count_free_succ n i B),
      (count_free_succ n i A'), (count_free_succ n i B').
    split; [lia|]. intros a Ha Hgain.
    destruct (Z.eq_dec a i) as [->|Hne]; [lia|].
    specialize (Hlt a ltac:(lia) Hgain). lia.
Qed.

(** X23: let page 0 be allocated and [new_process p k] succeed for a
    process identifier [p] below [PAGE_COUNT], giving page table [T].  In
    any later state in which the directory entry of [p], the page [T] and
    the allocation of [T] and of its [k] data pages are as [new_process]
    left them, [kill_process p] runs to completion, frees [T] and the [k]
    data pages, and the bitmap regains at least the [k + 1] free entries
    that [new_process] took.  It regains exactly [k + 1] if and only if
    every entry of [T] from index [k] on (an entry [new_process] did not
    write) is 0, or is no page number, or names a page that is free at the
    time of the kill, or names [T] or one of the [k] data pages. *)
Theorem kill_process_after_new_process p k m m1 T m1' :
  Mem.wf m -> Mem.at_ m 0 <> 0 -> 0 <= p < PAGE_COUNT -> 0 <= k ->
  new_process p k m = Some (Created, m1) ->
  T = directory_entry m1 p ->
  Mem.wf m1' ->
  directory_entry m1' p = T ->
  (forall j, 0 <= j < PAGE_SIZE -> pte m1' T j = pte m1 T j) ->
  Mem.at_ m1' T <> 0 ->
  (forall j, 0 <= j < k -> Mem.at_ m1' (pte m1 T j) <> 0) ->
  free_pages m1 = free_pages m - (k + 1) /\
  exists m2,
    kill_process p m1' = Some (tt, m2) /\
    Mem.at_ m2 T = 0 /\
    (forall j, 0 <= j < k -> Mem.at_ m2 (pte m1 T j) = 0) /\
    free_pages m1' + (k + 1) <= free_pages m2 /\
    (free_pages m2 = free_pages m1' + (k + 1) <->
     forall j, k <= j < PAGE_SIZE ->
       pte m1 T j = 0 \/ PTP_OFFSET <= pte m1 T j \/
       Mem.at_ m1' (pte m1 T j) = 0 \/ pte m1 T j = T \/
       exists j', 0 <= j' < k /\ pte m1 T j' = pte m1 T j).
Proof.
  intros Hwf H0 Hp Hk Hnew HT Hwf1' Hdir' Hpt' HT1' Hdata'.
  apply new_process_inv in Hnew; [|assumption].
  destruct Hnew as [([=] & _)|(T0 & HT0 & Hz & Hlow & Halloc & Hdir & Hloop)].
  destruct (loop_entry_facts m p T0 Hwf Hp HT0 Hz Hlow)
    as (Hwf0 & H00 & Hfree0 & Hcount0 & Hdir0).
  destruct (with_page_table_facts m p T0 Hwf Hp HT0 Hz Hlow)
    as (_ & _ & HT01 & _ & Hframe0 & _).
  assert (0 <= T0 < PAGE_COUNT) as HT0'' by exact HT0.
  assert (T = T0) as ->.
  { rewrite HT, <- Hdir0.
    exact (map_data_pages_directory _ p T0 _ m1 Hwf0 Hp HT0'' H00 Hfree0 Hloop). }
  destruct (map_data_pages_frame _ _ _ _ _ _ Hwf0 HT0'' H00 (Z.le_refl 0)
              Hfree0 Hloop) as (_ & _ & Hbound & _ & Hnz).
  rewrite Z2Nat.id in Hnz, Hbound by assumption.
  pose proof (count_free_bounds (Z.to_nat PTP_OFFSET) 0 m1) as Hb.
  fold (free_pages m1) in Hb.
  assert (k < PAGE_SIZE) as Hk256 by (unfold PAGE_COUNT, PAGE_SIZE in *; lia).
  assert (1 <= T0 < PAGE_COUNT) as HT0'.
  { destruct (Z.eq_dec T0 0) as [->|Hne]; [contradiction|lia]. }
  destruct (map_data_pages_fresh _ _ _ _ _ _ Hwf0 HT0' H00 (Z.le_refl 0)
              Hfree0 Hloop) as (Hcount & Hbitmap & Hentries).
  rewrite Z2Nat.id in Hcount, Hbitmap, Hentries by assumption.
  split; [lia|].
  destruct (kill_process_ok p m1' Hwf1') as [m2 Hkill].
  { unfold PAGE_COUNT, PTP_OFFSET, MEM_SIZE in *. lia. }
  { rewrite Hdir'. lia. }
  exists m2. split; [assumption|].
  pose proof (kill_process_effect _ _ _ _ Hwf1' Hkill) as (_ & Hfreed & Heff).
  pose proof (kill_process_frees _ _ _ _ Hwf1' Hkill) as Hfrees.
  rewrite Hdir' in Hfreed, Heff, Hfrees.
  specialize (Hfrees ltac:(lia)).
  assert (forall j, 0 <= j < k -> Mem.at_ m2 (pte m1 T0 j) = 0) as Hdata2.
  { intros j Hj. rewrite <- Hpt' by lia.
    apply Hfrees; [lia|]. rewrite Hpt' by lia. apply Hnz. lia. }
  split; [assumption|]. split; [assumption|].
  assert (Mem.at_ m1 T0 <> 0) as HT1.
  { assert (0 <= T0 < PAGE_SIZE) as HT256
      by (unfold PAGE_COUNT, PAGE_SIZE in *; lia).
    destruct (Hbitmap T0 HT256) as [Hsame|(_ & Hz0 & _)]; congruence. }
  (* the cells of the bitmap, one by one: what [new_process] took and what
     [kill_process] gives back *)
  assert (forall a, 0 <= a < PTP_OFFSET ->
            (Mem.at_ m a = 0 /\ Mem.at_ m1 a <> 0 /\
             Mem.at_ m2 a = 0 /\ Mem.at_ m1' a <> 0)
            \/ (a <> T0 /\ Mem.at_ m1 a = Mem.at_ m a /\
                (forall j, 0 <= j < k -> pte m1 T0 j <> a) /\
                (Mem.at_ m2 a = Mem.at_ m1' a \/ Mem.at_ m2 a = 0)))
    as Hcell.
  { intros a Ha. unfold PTP_OFFSET in Ha.
    assert (0 <= a < PAGE_SIZE) as Ha' by (unfold PAGE_SIZE; lia).
    destruct (Z.eq_dec a T0) as [->|HaT]; [left; auto|].
    assert (Mem.at_ (with_page_table m p T0) a = Mem.at_ m a) as Hsame0.
    { apply Hframe0; [assumption|]. unfold PTP_OFFSET. lia. }
    destruct (Hbitmap a Ha') as [Hsame|(_ & Hz0 & H1 & j & Hj & Hj')].
    - right. split; [assumption|]. split; [congruence|]. split.
      + intros j Hj Hj'. destruct (Hentries j ltac:(lia)) as [Hzj H1j].
        rewrite Hj' in Hzj, H1j. congruence.
      + destruct (Heff a) as [Hsame'|(Hz2 & _)]; auto.
    - left. rewrite <- Hsame0. split; [assumption|]. split; [lia|].
      rewrite <- Hj'. split; [apply Hdata2; lia|apply Hdata'; lia]. }
  assert (forall a, 0 <= a < 0 + Z.of_nat (Z.to_nat PTP_OFFSET) ->
            count_free 1 a m - count_free 1 a m1
            <= count_free 1 a m2 - count_free 1 a m1') as Hgain.
  { intros a Ha. rewrite !count_free_cell.
    destruct (Hcell a ltac:(unfold PTP_OFFSET in *; lia))
      as [(E & E1 & E2 & E1')|(_ & E & _ & [E'|E'])].
    - rewrite E, E2. simpl.
      destruct (Z.eqb_spec (Mem.at_ m1 a) 0), (Z.eqb_spec (Mem.at_ m1' a) 0);
        try contradiction; lia.
    - rewrite E, E'. lia.
    - rewrite E, E'. simpl. destruct (Mem.at_ m1' a =? 0); lia. }
  destruct (count_free_cells _ _ _ _ _ _ Hgain) as [Hle Hlt].
  fold (free_pages m) (free_pages m1) (free_pages m2) (free_pages m1')
    in Hle, Hlt.
  split; [lia|]. split.
  - (* exactly [k + 1]: no other allocated page is named *)
    intros Heq j Hj.
    pose proof (MemFacts.at_byte m1' (get_address T0 j) Hwf1') as Hbyte.
    fold (pte m1' T0 j) in Hbyte. rewrite Hpt' in Hbyte by lia.
    destruct (Z.eq_dec (pte m1 T0 j) 0) as [|Hnz0]; [auto|].
    destruct (Z_lt_le_dec (pte m1 T0 j) PTP_OFFSET) as [Hlt64|]; [|auto].
    destruct (Z.eq_dec (Mem.at_ m1' (pte m1 T0 j)) 0) as [|Hlive]; [auto|].
    destruct (Z.eq_dec (pte m1 T0 j) T0) as [|HnT]; [auto|].
    do 4 right.
    assert (0 <= pte m1 T0 j < PAGE_SIZE) as Hrange
      by (unfold PTP_OFFSET, PAGE_SIZE in *; lia).
    destruct (Hbitmap _ Hrange) as [Hsame|(_ & _ & _ & j' & Hj' & Hsame)];
      [exfalso|exists j'; split; [lia|assumption]].
    rewrite Hframe0 in Hsame;
      [|assumption|unfold PTP_OFFSET, PAGE_COUNT in *; lia].
    assert (Mem.at_ m2 (pte m1 T0 j) = 0) as Hz2.
    { rewrite <- Hpt' by lia. apply Hfrees; [lia|]. now rewrite Hpt' by lia. }
    enough (free_pages m - free_pages m1 < free_pages m2 - free_pages m1')
      by lia.
    apply (Hlt (pte m1 T0 j)); [unfold PTP_OFFSET in *; lia|].
    rewrite !count_free_cell. rewrite Hsame, Hz2. simpl.
    destruct (Z.eqb_spec (Mem.at_ m1' (pte m1 T0 j)) 0); [contradiction|].
    destruct (Mem.at_ m (pte m1 T0 j) =? 0); lia.
  - (* no other allocated page is named: exactly [k + 1] *)
    intros Hstale.
    enough (free_pages m - free_pages m1 = free_pages m2 - free_pages m1')
      by lia.
    apply count_free_diff. intros a Ha.
    destruct (Hcell a ltac:(unfold PTP_OFFSET in *; lia))
      as [Htaken|(HaT & E & Hnone & _)]; [left; exact Htaken|].
    right. split; [now rewrite E|].
    destruct (Heff a) as [Hsame'|(Hz2 & [->|(Hanz & j & Hj & Hj')])].
    + now rewrite Hsame'.
    + contradiction.
    + rewrite Hpt' in Hj' by assumption.
      destruct (Z.lt_ge_cases j k) as [Hjk|Hjk];
        [exfalso; apply (Hnone j); [lia|assumption]|].
      destruct (Hstale j ltac:(lia)) as [Z0|[Hhigh|[Hfree|[HeT|(j' & Hj'k & E')]]]].
      * congruence.
      * unfold PTP_OFFSET in *. lia.
      * rewrite Hj' in Hfree. now rewrite Hz2, Hfree.
      * congruence.
      * exfalso. apply (Hnone j'); [lia|congruence].
Qed.

Lemma kill_process_after_new_process_witness :
  let m := after [Np 1 2; Kp 1] in
  let m1 := after [Np 1 2; Kp 1; Np 2 1] in
  new_process 2 1 m = Some (Created, m1) /\
  pte m1 1 1 = 3 /\ Mem.at_ m1 3 = 0 /\
  free_pages m1 = free_pages m - (1 + 1) /\
  exists m2, kill_process 2 m1 = Some (tt, m2) /\
             free_pages m2 = free_pages m1 + (1 + 1).
Proof.
  intros m m1.
  assert (new_process 2 1 m = Some (Created, m1)) as Hnew
    by (vm_compute; reflexivity).
  split; [exact Hnew|].
  split; [vm_compute; reflexivity|]. split; [vm_compute; reflexivity|].
  destruct (kill_process_after_new_process 2 1 m m1 1 m1)
    as (Hcount & m2 & Hkill & _ & _ & _ & Hexact).
  - apply after_wf.
  - vm_compute. discriminate.
  - unfold PAGE_COUNT. lia.
  - lia.
  - exact Hnew.
  - vm_compute. reflexivity.
  - apply after_wf.
  - vm_compute. reflexivity.
  - reflexivity.
  - vm_compute. discriminate.
  - intros j Hj. assert (j = 0) as -> by lia. vm_compute. discriminate.
  - split; [exact Hcount|]. exists m2. split; [exact Hkill|].
    apply Hexact. intros j Hj.
    assert ((pte m1 1 j =? 0) || (Mem.at_ m1 (pte m1 1 j) =? 0) = true) as Hb.
    { apply (all_below_spec 255 1
               (fun j => (pte m1 1 j =? 0) || (Mem.at_ m1 (pte m1 1 j) =? 0)));
        [vm_compute; reflexivity|unfold PAGE_SIZE in Hj; lia]. }
    apply orb_true_iff in Hb as [Hb|Hb]; apply Z.eqb_eq in Hb; auto.
Defined.
